(** * Template helper functions of the Helm engine (pkg/engine/funcs.go)

    A shallow embedding of the data-interchange helpers and of the
    key/value filter that [funcMap] adds to the template function table,
    together with the part of Go's [reflect] package they are written
    against.

    Conventions.
    - A value held in an [interface{}] is a [value]: either the nil
      interface or a dynamic type together with its content.
    - A Go function that can panic returns an [outcome]; [Panic] carries
      the value handed to [panic].
    - A Go slice is [option (list A)]: [None] is the nil slice.
    - The modelled universe has booleans, ints, strings, slices, arrays,
      maps, pointers and structs without embedded fields.  Floats, funcs
      and channels are left out: their equality depends on IEEE rules or
      on object identity, which a value tree does not record. *)

From stdpp Require Import base strings list gmap pretty.
From Stdlib Require Import ZArith.

Open Scope string_scope.
Open Scope list_scope.

Set Warnings "-register-all".

(** ** Outcomes of computations that may panic *)

Inductive panic : Type :=
  | TypeAssertionError (dynamic : option string)
      (* interface conversion: interface {} is T, not string *)
  | ValueError (method kind : string)
      (* reflect: call of <method> on <kind> Value *)
  | NilDereference
      (* runtime error: invalid memory address or nil pointer dereference *)
  | ErrorValue (msg : string).
      (* panic(err) for an err built by fmt.Errorf *)

Inductive outcome (A : Type) : Type :=
  | Ret (a : A)
  | Panic (p : panic).

Arguments Ret {A} a.
Arguments Panic {A} p.

#[global] Instance outcome_ret : MRet outcome := fun A a => Ret a.

#[global] Instance outcome_bind : MBind outcome := fun A B f c =>
  match c with
  | Ret a => f a
  | Panic p => Panic p
  end.

Definition panics {A : Type} (c : outcome A) : Prop :=
  match c with
  | Ret _ => False
  | Panic _ => True
  end.

(** A Go slice header: [None] is the nil slice. *)
Definition slice (A : Type) : Type := option (list A).

Definition elems {A : Type} (s : slice A) : list A :=
  match s with
  | Some l => l
  | None => []
  end.

(** [append(s, x)] *)
Definition append {A : Type} (s : slice A) (x : A) : slice A :=
  Some (elems s ++ [x]).

(** ** The fragment of package reflect used by the filter *)

Module reflect.

Inductive Kind : Type :=
  | Invalid | Bool | Int | String | Interface
  | Slice | Array | Map | Ptr | Struct.

#[global] Instance Kind_eq_dec : EqDecision Kind.
Proof. solve_decision. Defined.

(** [Kind.String] *)
Definition Kind_String (k : Kind) : string :=
  match k with
  | Invalid => "invalid"
  | Bool => "bool"
  | Int => "int"
  | String => "string"
  | Interface => "interface"
  | Slice => "slice"
  | Array => "array"
  | Map => "map"
  | Ptr => "ptr"
  | Struct => "struct"
  end.

(** Go types.  A struct type is identified by its name. *)
Inductive type : Type :=
  | TBool
  | TInt
  | TString
  | TInterface
  | TSlice (elem : type)
  | TArray (len : nat) (elem : type)
  | TMap (key elem : type)
  | TPtr (elem : type)
  | TStruct (name : string).

#[global] Instance type_eq_dec : EqDecision type.
Proof. solve_decision. Defined.

Definition kind_of (t : type) : Kind :=
  match t with
  | TBool => Bool
  | TInt => Int
  | TString => String
  | TInterface => Interface
  | TSlice _ => Slice
  | TArray _ _ => Array
  | TMap _ _ => Map
  | TPtr _ => Ptr
  | TStruct _ => Struct
  end.

(** [Type.String] *)
Fixpoint type_String (t : type) : string :=
  match t with
  | TBool => "bool"
  | TInt => "int"
  | TString => "string"
  | TInterface => "interface {}"
  | TSlice e => "[]" +:+ type_String e
  | TArray n e => "[" +:+ pretty n +:+ "]" +:+ type_String e
  | TMap k e => "map[" +:+ type_String k +:+ "]" +:+ type_String e
  | TPtr e => "*" +:+ type_String e
  | TStruct name => name
  end.

(** Dynamic values.  [VNil] is the nil interface; every other
    constructor fixes the dynamic type.  A struct field records its
    name, its declared type and its content; a map lists its entries
    in the order in which [MapKeys] hands out the keys in the call at
    hand (another call may see another order). *)
Inductive value : Type :=
  | VNil
  | VBool (b : bool)
  | VInt (n : Z)
  | VString (s : string)
  | VSlice (elem : type) (els : slice value)
  | VArray (elem : type) (els : list value)
  | VMap (key elem : type) (entries : option (list (value * value)))
  | VPtr (elem : type) (target : option value)
  | VStruct (name : string) (fields : list (string * (type * value))).

(** [reflect.TypeOf]: [None] is the nil [Type] returned for a nil
    interface. *)
Definition TypeOf (i : value) : option type :=
  match i with
  | VNil => None
  | VBool _ => Some TBool
  | VInt _ => Some TInt
  | VString _ => Some TString
  | VSlice e _ => Some (TSlice e)
  | VArray e l => Some (TArray (length l) e)
  | VMap k e _ => Some (TMap k e)
  | VPtr e _ => Some (TPtr e)
  | VStruct name _ => Some (TStruct name)
  end.

(** A [reflect.Value]: the zero Value, or a content seen at a static
    type.  At static type [TInterface] the content is any dynamic
    value or [VNil]. *)
Inductive Value : Type :=
  | Zero
  | Val (t : type) (content : value).

(** [reflect.ValueOf] *)
Definition ValueOf (i : value) : Value :=
  match TypeOf i with
  | None => Zero
  | Some t => Val t i
  end.

(** [Value.Kind] *)
Definition Value_Kind (rv : Value) : Kind :=
  match rv with
  | Zero => Invalid
  | Val t _ => kind_of t
  end.

(** [Value.String]: the content of a string, a placeholder naming the
    type for everything else. *)
Definition Value_String (rv : Value) : string :=
  match rv with
  | Zero => "<invalid Value>"
  | Val TString (VString s) => s
  | Val t _ => "<" +:+ type_String t +:+ " Value>"
  end.

(** The entries of a map Value: each key as a Value of the key type,
    paired with what [MapIndex(key).Interface()] returns for it. *)
Definition MapEntries (rv : Value) : list (Value * value) :=
  match rv with
  | Val (TMap kt _) (VMap _ _ (Some entries)) =>
      List.map (fun kv => (Val kt (fst kv), snd kv)) entries
  | _ => []
  end.

(** [Value.Len] and [Value.Index(i).Interface()] of a slice or array. *)
Definition Elements (i : value) : list value :=
  match i with
  | VSlice _ s => elems s
  | VArray _ l => l
  | _ => []
  end.

(** [Value.Elem] of a pointer Value. *)
Definition Value_Elem (rv : Value) : Value :=
  match rv with
  | Val (TPtr e) (VPtr _ (Some x)) => Val e x
  | _ => Zero
  end.

Fixpoint lookup_field (k : string) (fields : list (string * (type * value)))
  : Value :=
  match fields with
  | [] => Zero
  | (name, (t, x)) :: rest =>
      if bool_decide (name = k) then Val t x else lookup_field k rest
  end.

(** [Value.FieldByName]: panics unless the Value is a struct; the
    zero Value when the struct has no such field. *)
Definition Value_FieldByName (rv : Value) (k : string) : outcome Value :=
  match rv with
  | Val (TStruct _) (VStruct _ fields) => Ret (lookup_field k fields)
  | _ => Panic (ValueError "reflect.Value.FieldByName"
                           (Kind_String (Value_Kind rv)))
  end.

(** Go's [==] on map keys.  In a universe without floats two keys are
    equal exactly when they are the same tree; a pointer is identified
    with the tree it points to. *)
Fixpoint key_equal (a b : value) {struct a} : bool :=
  match a, b with
  | VNil, VNil => true
  | VBool x, VBool y => bool_decide (x = y)
  | VInt x, VInt y => bool_decide (x = y)
  | VString x, VString y => bool_decide (x = y)
  | VSlice e1 s1, VSlice e2 s2 =>
      bool_decide (e1 = e2) &&
      match s1, s2 with
      | None, None => true
      | Some l1, Some l2 =>
          (fix each (l1 l2 : list value) : bool :=
             match l1, l2 with
             | [], [] => true
             | x :: l1', y :: l2' => key_equal x y && each l1' l2'
             | _, _ => false
             end) l1 l2
      | _, _ => false
      end
  | VArray e1 l1, VArray e2 l2 =>
      bool_decide (e1 = e2) &&
      (fix each (l1 l2 : list value) : bool :=
         match l1, l2 with
         | [], [] => true
         | x :: l1', y :: l2' => key_equal x y && each l1' l2'
         | _, _ => false
         end) l1 l2
  | VMap k1 e1 m1, VMap k2 e2 m2 =>
      bool_decide (k1 = k2) && bool_decide (e1 = e2) &&
      match m1, m2 with
      | None, None => true
      | Some l1, Some l2 =>
          (fix each (l1 l2 : list (value * value)) : bool :=
             match l1, l2 with
             | [], [] => true
             | (k, x) :: l1', (k', y) :: l2' =>
                 key_equal k k' && key_equal x y && each l1' l2'
             | _, _ => false
             end) l1 l2
      | _, _ => false
      end
  | VPtr e1 t1, VPtr e2 t2 =>
      bool_decide (e1 = e2) &&
      match t1, t2 with
      | None, None => true
      | Some x, Some y => key_equal x y
      | _, _ => false
      end
  | VStruct n1 f1, VStruct n2 f2 =>
      bool_decide (n1 = n2) &&
      (fix each (f1 f2 : list (string * (type * value))) : bool :=
         match f1, f2 with
         | [], [] => true
         | (a, (ta, x)) :: f1', (b, (tb, y)) :: f2' =>
             bool_decide (a = b) && bool_decide (ta = tb) &&
             key_equal x y && each f1' f2'
         | _, _ => false
         end) f1 f2
  | _, _ => false
  end.

Fixpoint map_index {A : Type} (entries : list (value * A)) (k : value)
  : option A :=
  match entries with
  | [] => None
  | (k', x) :: rest => if key_equal k' k then Some x else map_index rest k
  end.

(** [deepValueEqual]: equal types, then equality by kind. *)
Fixpoint deepValueEqual (v1 v2 : value) {struct v1} : bool :=
  match v1, v2 with
  | VNil, VNil => true
  | VBool a, VBool b => bool_decide (a = b)
  | VInt a, VInt b => bool_decide (a = b)
  | VString a, VString b => bool_decide (a = b)
  | VSlice e1 s1, VSlice e2 s2 =>
      bool_decide (e1 = e2) &&
      match s1, s2 with
      | None, None => true
      | Some l1, Some l2 =>
          (fix each (l1 l2 : list value) : bool :=
             match l1, l2 with
             | [], [] => true
             | x :: l1', y :: l2' => deepValueEqual x y && each l1' l2'
             | _, _ => false
             end) l1 l2
      | _, _ => false
      end
  | VArray e1 l1, VArray e2 l2 =>
      bool_decide (e1 = e2) &&
      (fix each (l1 l2 : list value) : bool :=
         match l1, l2 with
         | [], [] => true
         | x :: l1', y :: l2' => deepValueEqual x y && each l1' l2'
         | _, _ => false
         end) l1 l2
  | VMap k1 e1 m1, VMap k2 e2 m2 =>
      bool_decide (k1 = k2) && bool_decide (e1 = e2) &&
      match m1, m2 with
      | None, None => true
      | Some l1, Some l2 =>
          bool_decide (length l1 = length l2) &&
          (fix each (l1 : list (value * value)) : bool :=
             match l1 with
             | [] => true
             | (k, x) :: l1' =>
                 match map_index l2 k with
                 | Some y => deepValueEqual x y
                 | None => false
                 end && each l1'
             end) l1
      | _, _ => false
      end
  | VPtr e1 t1, VPtr e2 t2 =>
      bool_decide (e1 = e2) &&
      match t1, t2 with
      | None, None => true
      | Some x, Some y => deepValueEqual x y
      | _, _ => false
      end
  | VStruct n1 f1, VStruct n2 f2 =>
      bool_decide (n1 = n2) &&
      (fix each (f1 f2 : list (string * (type * value))) : bool :=
         match f1, f2 with
         | [], [] => true
         | (a, (ta, x)) :: f1', (b, (tb, y)) :: f2' =>
             bool_decide (a = b) && bool_decide (ta = tb) &&
             deepValueEqual x y && each f1' f2'
         | _, _ => false
         end) f1 f2
  | _, _ => false
  end.

(** [reflect.DeepEqual] *)
Definition DeepEqual (x y : value) : bool :=
  match x, y with
  | VNil, VNil => true
  | VNil, _ | _, VNil => false
  | _, _ =>
      if bool_decide (TypeOf x = TypeOf y) then deepValueEqual x y
      else false
  end.

End reflect.

(** ** The encoders and decoders the helpers call

    The YAML, JSON and TOML packages are used through [Marshal],
    [Unmarshal], [Encode] and [Decode] only, so they enter as records of
    functions.  What a call does to the variable behind its pointer
    argument is returned as a result. *)

Abbreviation error := string (only parsing).

(** Outcome of [Unmarshal(data, &x)] and of a successful [Decode(&x)]:
    [x] as the call leaves it.  A successful call may set [x] to nil (a
    top-level null); a failing call leaves [x] allocated, holding
    whatever was stored before the failure. *)
Inductive decoded (A : Type) : Type :=
  | Stored (x : option A)
  | Failed (x : A) (err : error).

Arguments Stored {A} x.
Arguments Failed {A} x err.

(** [sigs.k8s.io/yaml] and [encoding/json].  [Marshal] returns the data
    and the error of the Go call.  Every error these packages return
    has a non-empty description. *)
Record Codec : Type := {
  Marshal : reflect.value -> string * option error;
  Unmarshal_map :
    string -> gmap string reflect.value -> decoded (gmap string reflect.value);
  Unmarshal_slice :
    string -> list reflect.value -> decoded (list reflect.value);
  Unmarshal_map_error : forall data m m' err,
    Unmarshal_map data m = Failed m' err -> err <> EmptyString;
}.

(** [toml.NewEncoder(b).Encode]: what was written to the buffer [b],
    and the error. *)
Record Encoder : Type := {
  Encode : reflect.value -> string * option error;
}.

(** What one [Decode(&m)] of a [k8syaml.YAMLOrJSONDecoder] reports. *)
Inductive decode_event : Type :=
  | Doc (m : option (gmap string reflect.value))
  | EOF
  | Err (m : gmap string reflect.value) (err : error).

(** [k8s.io/apimachinery/pkg/util/yaml]: a decoder over an input
    stream.  [pending] bounds the documents still to come: a [Decode]
    that yields a document consumes input. *)
Record Decoder : Type := {
  stream : Type;
  NewYAMLOrJSONDecoder : string -> stream;
  Decode : stream -> gmap string reflect.value -> stream * decode_event;
  pending : stream -> nat;
  Decode_progress : forall s m s' d,
    Decode s m = (s', Doc d) -> pending s' < pending s;
}.

(** [strings.TrimSuffix] *)
Fixpoint TrimSuffix (s suffix : string) : string :=
  if String.eqb s suffix then EmptyString
  else match s with
       | EmptyString => EmptyString
       | String c s' => String c (TrimSuffix s' suffix)
       end.

Definition newline : string := String (Ascii.ascii_of_nat 10) EmptyString.

(** [strings.HasSuffix] *)
Fixpoint HasSuffix (s suffix : string) : bool :=
  String.eqb s suffix ||
  match s with
  | EmptyString => false
  | String _ s' => HasSuffix s' suffix
  end.

(** ** Package engine *)

Module engine.
Import reflect.

(** The type assertion [k.(string)]. *)
Definition assert_string (k : value) : outcome string :=
  match k with
  | VString s => Ret s
  | _ => Panic (TypeAssertionError (type_String <$> TypeOf k))
  end.

(** The [for _, key := range rv.MapKeys()] loop of [doFilter]: the first
    key whose [String()] is [k] decides; [false] when the keys run out. *)
Fixpoint match_keys (k : string) (v : value) (entries : list (Value * value))
  : bool :=
  match entries with
  | [] => false
  | (key, x) :: rest =>
      if bool_decide (Value_String key = k) then DeepEqual x v
      else match_keys k v rest
  end.

Definition doFilter (item : value) (k : string) (v : value) : outcome bool :=
  let rv := ValueOf item in
  if bool_decide (Value_Kind rv = Map) then
    Ret (match_keys k v (MapEntries rv))
  else
    el ← (if bool_decide (Value_Kind rv = Ptr)
          then Value_FieldByName (Value_Elem rv) k
          else Value_FieldByName rv k);
    Ret (DeepEqual (VString (Value_String el)) v).

(** The [for i := 0; i < l; i++] loop of [mustFilter]; [res] is the
    slice built so far. *)
Fixpoint filter_items (k v : value) (items res : list value)
  : outcome (list value) :=
  match items with
  | [] => Ret res
  | item :: rest =>
      key ← assert_string k;
      b ← doFilter item key v;
      filter_items k v rest (if b : bool then res ++ [item] else res)
  end.

Definition mustFilter (k v coll : value)
  : outcome (slice value * option error) :=
  match TypeOf coll with
  | None => Panic NilDereference
  | Some t =>
      let tp := kind_of t in
      match tp with
      | Slice | Array =>
          res ← filter_items k v (Elements coll) [];
          Ret (Some res, None)
      | Map =>
          key ← assert_string k;
          b ← doFilter coll key v;
          if b : bool then Ret (Some [coll], None) else Ret (None, None)
      | _ => Ret (None, Some ("cannot filter on type " +:+ Kind_String tp))
      end
  end.

Definition filter (k v coll : value) : outcome (slice value) :=
  r ← mustFilter k v coll;
  match snd r with
  | Some err => Panic (ErrorValue err)
  | None => Ret (fst r)
  end.

(** *** Conversions *)

Section bridge.
Context (yaml json : Codec) (toml : Encoder) (k8syaml : Decoder).

Definition toYAML (v : value) : string :=
  let (data, err) := Marshal yaml v in
  match err with
  | Some _ => EmptyString
  | None => TrimSuffix data newline
  end.

Definition fromYAML (str : string) : option (gmap string value) :=
  match Unmarshal_map yaml str ∅ with
  | Stored m => m
  | Failed m err => Some (<["Error" := VString err]> m)
  end.

Definition fromYAMLArray (str : string) : slice value :=
  match Unmarshal_slice yaml str [] with
  | Stored a => a
  | Failed _ err => Some [VString err]
  end.

(** The [for] loop of [fromYamlDocument].  [fuel] bounds the number of
    iterations; [None] means that it ran out. *)
Fixpoint decode_loop (fuel : nat) (s : stream k8syaml)
    (li : slice (option (gmap string value)))
  : option (slice (option (gmap string value))) :=
  match fuel with
  | O => None
  | S fuel' =>
      match Decode k8syaml s ∅ with
      | (_, EOF) => Some li
      | (_, Err m err) => Some (Some [Some (<["Error" := VString err]> m)])
      | (s', Doc m) => decode_loop fuel' s' (append li m)
      end
  end.

Definition fromYamlDocument (str : string)
  : option (slice (option (gmap string value))) :=
  let decoder := NewYAMLOrJSONDecoder k8syaml str in
  decode_loop (S (pending k8syaml decoder)) decoder None.

Definition toTOML (v : value) : string :=
  let (b, err) := Encode toml v in
  match err with
  | Some e => e
  | None => b
  end.

Definition toJSON (v : value) : string :=
  let (data, err) := Marshal json v in
  match err with
  | Some _ => EmptyString
  | None => data
  end.

Definition fromJSON (str : string) : option (gmap string value) :=
  match Unmarshal_map json str ∅ with
  | Stored m => m
  | Failed m err => Some (<["Error" := VString err]> m)
  end.

Definition fromJSONArray (str : string) : slice value :=
  match Unmarshal_slice json str [] with
  | Stored a => a
  | Failed _ err => Some [VString err]
  end.

End bridge.

(** *** The function table *)

(** What [funcMap] binds a name to: the helpers of this file and the
    four placeholder closures, each named after the Go function or the
    key it stands for. *)
Inductive helper : Type :=
  | HtoTOML | HtoYAML | HfromYAML | HfromYAMLArray | HfromYamlDocument
  | HtoJSON | HfromJSON | HfromJSONArray | Hfilter | HmustFilter
  | Hinclude | Htpl | Hrequired | Hlookup.

#[global] Instance helper_eq_dec : EqDecision helper.
Proof. solve_decision. Defined.

(** A function of the table: one that sprig supplies, or a helper. *)
Inductive func (F : Type) : Type :=
  | Sprig (f : F)
  | Helper (h : helper).

Arguments Sprig {F} f.
Arguments Helper {F} h.

(** The literal [extra]. *)
Definition extra : list (string * helper) :=
  [("toToml", HtoTOML); ("toYaml", HtoYAML); ("fromYaml", HfromYAML);
   ("fromYamlArray", HfromYAMLArray);
   ("fromYamlDocument", HfromYamlDocument);
   ("toJson", HtoJSON); ("fromJson", HfromJSON);
   ("fromJsonArray", HfromJSONArray);
   ("filter", Hfilter); ("mustFilter", HmustFilter);
   ("include", Hinclude); ("tpl", Htpl); ("required", Hrequired);
   ("lookup", Hlookup)].

(** [for k, v := range extra { f[k] = v }], where the range hands out
    the entries in the order [order]. *)
Definition assign_all {F : Type} (order : list (string * helper))
    (f : gmap string (func F)) : gmap string (func F) :=
  foldl (fun f kv => <[fst kv := Helper (snd kv)]> f) f order.

(** [funcMap], given what [sprig.TxtFuncMap()] returns and the order in
    which the range over [extra] runs. *)
Definition funcMap {F : Type} (TxtFuncMap : gmap string F)
    (order : list (string * helper)) : gmap string (func F) :=
  let f := Sprig <$> TxtFuncMap in
  let f := delete "env" f in
  let f := delete "expandenv" f in
  assign_all order f.

End engine.

(** * Notions used to state the properties *)

Section notions.
Import reflect engine.

(** The element match rule as a boolean: [true] when [doFilter] returns
    [true]. *)
Definition matches (k : string) (v item : value) : bool :=
  match doFilter item k v with
  | Ret b => b
  | Panic _ => false
  end.

(** A sequence or fixed-size array. *)
Definition is_sequence (coll : value) : bool :=
  match coll with
  | VSlice _ _ | VArray _ _ => true
  | _ => false
  end.

(** A map, a struct, or a pointer to a struct. *)
Definition record_like (item : value) : bool :=
  match item with
  | VMap _ _ _ | VStruct _ _ | VPtr (TStruct _) _ => true
  | _ => false
  end.

(** The elements the match rule is written for: a map, a struct, or a
    non-nil pointer to a struct. *)
Definition matchable (item : value) : bool :=
  match item with
  | VMap _ _ _ | VStruct _ _ | VPtr (TStruct _) (Some (VStruct _ _)) => true
  | _ => false
  end.

(** The [String()] forms of the keys of a map with key type [kt]. *)
Definition key_strings (kt : type) (entries : list (value * value))
  : list string :=
  List.map (fun kv => Value_String (Val kt (fst kv))) entries.

(** No two keys of a map element print the same [String()]: so it is
    for every map with string keys, and for a map with keys of another
    type when it has at most one entry. *)
Definition keys_distinct (item : value) : bool :=
  match item with
  | VMap kt _ (Some entries) => bool_decide (NoDup (key_strings kt entries))
  | _ => true
  end.

(** The same element as another call may see it.  A [VMap] lists its
    entries in the order in which [MapKeys] hands out the keys in one
    call; Go fixes no order, so in another call the same map may show
    its entries in any other order. *)
Definition reordered (x y : value) : Prop :=
  match x, y with
  | VMap kt1 et1 (Some l1), VMap kt2 et2 (Some l2) =>
      kt1 = kt2 /\ et1 = et2 /\ l1 ≡ₚ l2
  | _, _ => x = y
  end.

(** A boolean, an int or a string. *)
Definition scalar (x : value) : bool :=
  match x with
  | VBool _ | VInt _ | VString _ => true
  | _ => false
  end.

(** The sequence a call of [mustFilter] hands back, as the
    [[]interface{}] value a template passes on. *)
Definition sequence_value (res : slice value) : value :=
  VSlice TInterface res.

(** A [map[string]interface{}] with the given entries, as a dynamic
    value. *)
Definition dynamic_map (entries : list (string * value)) : value :=
  VMap TString TInterface
       (Some (List.map (fun kv => (VString (fst kv), snd kv)) entries)).


(** How a run of [Decode] calls on a stream ends. *)
Inductive ending : Type :=
  | AtEOF
  | AtError (m : gmap string value) (err : error).

(** [decodes d s docs fin]: starting from [s], successive [Decode]
    calls, each into a fresh empty map, yield the documents [docs] in
    this order and then end as [fin] says. *)
Inductive decodes (d : Decoder)
  : stream d -> list (option (gmap string value)) -> ending -> Prop :=
  | decodes_EOF s s' :
      Decode d s ∅ = (s', EOF) -> decodes d s [] AtEOF
  | decodes_Err s s' m err :
      Decode d s ∅ = (s', Err m err) -> decodes d s [] (AtError m err)
  | decodes_Doc s s' m docs fin :
      Decode d s ∅ = (s', Doc m) -> decodes d s' docs fin ->
      decodes d s (m :: docs) fin.

End notions.

(** ** Small codecs and decoders on which the statements are exercised *)

Definition quote : string := String (Ascii.ascii_of_nat 34) EmptyString.

Definition not_an_object : error :=
  "json: cannot unmarshal string into Go value of type map[string]interface {}".

Definition not_an_array : error :=
  "json: cannot unmarshal string into Go value of type []interface {}".

(** [encoding/json] cut down to strings that need no escaping and to
    the empty object: the empty map is written as an empty object and
    read back by storing nothing; every other text is rejected. *)
Definition mini_json_Marshal (v : reflect.value) : string * option error :=
  match v with
  | reflect.VString s => (quote +:+ s +:+ quote, None)
  | reflect.VMap reflect.TString reflect.TInterface (Some []) => ("{}", None)
  | _ => (EmptyString, Some "json: unsupported type")
  end.

Definition mini_Unmarshal {A : Type} (accepted : string) (err : error)
    (data : string) (x : A) : decoded A :=
  if String.eqb data accepted then Stored (Some x) else Failed x err.

Program Definition mini_json : Codec := {|
  Marshal := mini_json_Marshal;
  Unmarshal_map := mini_Unmarshal "{}" not_an_object;
  Unmarshal_slice := mini_Unmarshal "[]" not_an_array;
|}.
Next Obligation.
  intros data m m' err. unfold mini_Unmarshal.
  destruct (String.eqb data "{}"); [done |]. by intros [= _ <-].
Qed.

(** The same for [sigs.k8s.io/yaml], whose [Marshal] ends each document
    with a newline. *)
Definition mini_yaml_Marshal (v : reflect.value) : string * option error :=
  match v with
  | reflect.VString s => (s +:+ newline, None)
  | reflect.VMap reflect.TString reflect.TInterface (Some []) =>
      ("{}" +:+ newline, None)
  | _ => (EmptyString, Some "error marshaling into JSON: json: unsupported type")
  end.

Program Definition mini_yaml : Codec := {|
  Marshal := mini_yaml_Marshal;
  Unmarshal_map :=
    mini_Unmarshal "{}" ("error unmarshaling JSON: " +:+ not_an_object);
  Unmarshal_slice :=
    mini_Unmarshal "[]" ("error unmarshaling JSON: " +:+ not_an_array);
|}.
Next Obligation.
  intros data m m' err. unfold mini_Unmarshal.
  destruct (String.eqb data "{}"); [done |]. by intros [= _ <-].
Qed.

(** A TOML encoder that accepts strings only. *)
Definition mini_toml : Encoder := {|
  Encode v :=
    match v with
    | reflect.VString s => (s, None)
    | _ => (EmptyString, Some "toml: top-level values must be Go maps or structs")
    end;
|}.

(** The text [{"a":true,"b":1e1000}]. *)
Definition number_out_of_range : string :=
  "{" +:+ quote +:+ "a" +:+ quote +:+ ":true," +:+
  quote +:+ "b" +:+ quote +:+ ":1e1000}".

(** [encoding/json] at the text above.  A number that does not fit a
    float64 is recorded as an error and decoding goes on: [Unmarshal]
    stores the field [a], stores [b] without a value, and returns the
    recorded error at the end.  Other texts are treated as by
    [mini_json]. *)
Definition json_number_range_Unmarshal (data : string)
    (m : gmap string reflect.value) : decoded (gmap string reflect.value) :=
  if String.eqb data number_out_of_range
  then Failed (<["b" := reflect.VNil]> (<["a" := reflect.VBool true]> m))
         "json: cannot unmarshal number 1e1000 into Go value of type float64"
  else mini_Unmarshal "{}" not_an_object data m.

Program Definition json_number_range : Codec := {|
  Marshal := mini_json_Marshal;
  Unmarshal_map := json_number_range_Unmarshal;
  Unmarshal_slice := mini_Unmarshal "[]" not_an_array;
|}.
Next Obligation.
  intros data m m' err. unfold json_number_range_Unmarshal, mini_Unmarshal.
  destruct (String.eqb data number_out_of_range); [by intros [= _ <-] |].
  destruct (String.eqb data "{}"); [done |]. by intros [= _ <-].
Qed.

(** A stream decoder whose documents are single characters: [!] is a
    malformed document, [~] the null document, any other character [c]
    the document with the one entry [doc: c]. *)
Definition letters_Decode (s : string) (m : gmap string reflect.value)
  : string * decode_event :=
  match s with
  | EmptyString => (s, EOF)
  | String c s' =>
      if String.eqb (String c EmptyString) "!" then (s', Err m "yaml: did not find expected node")
      else if String.eqb (String c EmptyString) "~" then (s', Doc None)
      else (s', Doc (Some (<["doc" := reflect.VString (String c EmptyString)]> m)))
  end.

Program Definition letters : Decoder := {|
  stream := string;
  NewYAMLOrJSONDecoder str := str;
  Decode := letters_Decode;
  pending := String.length;
|}.
Next Obligation.
  intros s m s' d. unfold letters_Decode.
  destruct s as [| c s0]; [discriminate |].
  destruct (String.eqb (String c EmptyString) "!"); [discriminate |].
  destruct (String.eqb (String c EmptyString) "~"); intros [= <- _]; simpl; lia.
Qed.

(** ** Well-formed values *)

Section well_formed.
Import reflect.

(** The values Go can build within the modelled universe: the keys of
    every map are pairwise different. *)
Fixpoint well_formed (v : value) : bool :=
  match v with
  | VNil | VBool _ | VInt _ | VString _ => true
  | VSlice _ None => true
  | VSlice _ (Some l) | VArray _ l =>
      (fix all (l : list value) : bool :=
         match l with
         | [] => true
         | x :: l' => well_formed x && all l'
         end) l
  | VMap _ _ None => true
  | VMap _ _ (Some l) =>
      (fix all (l : list (value * value)) : bool :=
         match l with
         | [] => true
         | (k, x) :: l' =>
             negb (existsb (fun kv => key_equal k (fst kv)) l') &&
             well_formed x && all l'
         end) l
  | VPtr _ None => true
  | VPtr _ (Some x) => well_formed x
  | VStruct _ fields =>
      (fix all (l : list (string * (type * value))) : bool :=
         match l with
         | [] => true
         | (_, (_, x)) :: l' => well_formed x && all l'
         end) fields
  end.

End well_formed.

(** * The library fragment on concrete inputs *)

Example TrimSuffix_newline :
  TrimSuffix ("a: 1" +:+ newline) newline = "a: 1" /\
  TrimSuffix ("a: 1" +:+ newline +:+ "b: 2") newline =
    "a: 1" +:+ newline +:+ "b: 2" /\
  TrimSuffix (newline +:+ newline) newline = newline.
Proof. repeat split. Qed.

Lemma length_append (s t : string) :
  String.length (s +:+ t) = String.length s + String.length t.
Proof. induction s as [| c s IH]; simpl; [done | by rewrite IH]. Qed.

Lemma TrimSuffix_app s suffix : TrimSuffix (s +:+ suffix) suffix = s.
Proof.
  induction s as [| c s IH].
  - destruct suffix; simpl; [done |].
    by rewrite Ascii.eqb_refl, String.eqb_refl.
  - assert (Hne : String.eqb (String c (s +:+ suffix)) suffix = false).
    { apply String.eqb_neq. intros E.
      apply (f_equal String.length) in E. simpl in E.
      rewrite length_append in E. lia. }
    simpl in Hne |- *. by rewrite Hne, IH.
Qed.

Section examples.
Import reflect engine.

Example Value_String_placeholders :
  Value_String (ValueOf (VString "web")) = "web" /\
  Value_String (ValueOf (VInt 42)) = "<int Value>" /\
  Value_String (Val TInterface (VString "web")) = "<interface {} Value>" /\
  Value_String (ValueOf (VMap TString (TSlice TInt) None)) =
    "<map[string][]int Value>" /\
  Value_String Zero = "<invalid Value>".
Proof. repeat split. Qed.

Example DeepEqual_by_type :
  DeepEqual (VInt 42) (VInt 42) = true /\
  DeepEqual (VInt 42) (VString "42") = false /\
  DeepEqual (VSlice TInt None) (VSlice TInt (Some [])) = false /\
  DeepEqual (VSlice TInterface (Some [VInt 1])) (VSlice TInt (Some [VInt 1]))
    = false /\
  DeepEqual (dynamic_map [("a", VInt 1); ("b", VNil)])
            (dynamic_map [("b", VNil); ("a", VInt 1)]) = true.
Proof. repeat split. Qed.

Example mustFilter_pointers_to_structs :
  mustFilter (VString "Name") (VString "web")
    (VSlice (TPtr (TStruct "engine.service"))
       (Some [VPtr (TStruct "engine.service")
                (Some (VStruct "engine.service"
                         [("Name", (TString, VString "db"))]));
              VPtr (TStruct "engine.service")
                (Some (VStruct "engine.service"
                         [("Name", (TString, VString "web"))]))])) =
  Ret (Some [VPtr (TStruct "engine.service")
               (Some (VStruct "engine.service"
                        [("Name", (TString, VString "web"))]))], None).
Proof. reflexivity. Qed.

End examples.

(** * Properties of the filter *)

Section filter_facts.
Import reflect engine.

Lemma bind_Ret {A B : Type} (a : A) (f : A -> outcome B) :
  (Ret a ≫= f) = f a.
Proof. reflexivity. Qed.

Lemma bind_Panic {A B : Type} (p : panic) (f : A -> outcome B) :
  (Panic p ≫= f) = Panic p.
Proof. reflexivity. Qed.

Lemma assert_string_not_string k :
  TypeOf k <> Some TString ->
  assert_string k = Panic (TypeAssertionError (type_String <$> TypeOf k)).
Proof. destruct k; simpl; congruence. Qed.

Lemma doFilter_map kt et entries k v :
  doFilter (VMap kt et entries) k v =
  Ret (match_keys k v (MapEntries (Val (TMap kt et) (VMap kt et entries)))).
Proof. reflexivity. Qed.

(** The only panic of [doFilter] is the one of [FieldByName]. *)
Lemma doFilter_panic item k v p :
  doFilter item k v = Panic p ->
  exists kind, p = ValueError "reflect.Value.FieldByName" kind.
Proof.
  unfold doFilter. case_bool_decide; [discriminate |].
  set (rv := ValueOf item).
  assert (Hf : forall w q, Value_FieldByName w k = Panic q ->
               exists kind, q = ValueError "reflect.Value.FieldByName" kind).
  { intros w q. unfold Value_FieldByName.
    destruct w as [| [] []]; intros [= <-]; eauto. }
  case_bool_decide.
  - destruct (Value_FieldByName (Value_Elem rv) k) eqn:E; [discriminate |].
    intros [= <-]. eauto.
  - destruct (Value_FieldByName rv k) eqn:E; [discriminate |].
    intros [= <-]. eauto.
Qed.

Lemma doFilter_not_record item k v :
  record_like item = false ->
  exists kind, doFilter item k v =
               Panic (ValueError "reflect.Value.FieldByName" kind).
Proof.
  destruct item as [| | | | | | | e t |]; try discriminate;
    try (intros _; eexists; reflexivity).
  destruct e; try discriminate; intros _;
    destruct t as [[]|]; eexists; reflexivity.
Qed.

(** [doFilter] returns exactly on the matchable elements. *)
Lemma doFilter_matchable item k v :
  matchable item = true <-> ~ panics (doFilter item k v).
Proof.
  destruct item as [| | | | | | | e t |]; simpl;
    try (split; [discriminate | tauto]); try (split; [tauto | done]).
  destruct e; try (split; [discriminate | destruct t; simpl; tauto]).
  destruct t as [[] |]; simpl;
    try (split; [discriminate | tauto]); split; [tauto | done].
Qed.

Lemma filter_items_Ret k v items res :
  Forall (fun item => matchable item = true) items ->
  filter_items (VString k) v items res =
  Ret (res ++ List.filter (matches k v) items).
Proof.
  intros H. revert res. induction H as [| item items Hx _ IH]; intros res.
  - simpl. by rewrite app_nil_r.
  - simpl. unfold matches at 1.
    apply doFilter_matchable with (k := k) (v := v) in Hx.
    destruct (doFilter item k v) as [b | p]; [| by destruct Hx].
    rewrite !bind_Ret, IH. destruct b; [| done].
    by rewrite <- app_assoc.
Qed.

Lemma filter_items_panic k v items res :
  Exists (fun item => record_like item = false) items ->
  exists kind, filter_items (VString k) v items res =
               Panic (ValueError "reflect.Value.FieldByName" kind).
Proof.
  intros H. revert res. induction items as [| item items IH]; intros res.
  - inversion H.
  - simpl. destruct (doFilter item k v) as [b | p] eqn:E.
    + rewrite !bind_Ret. apply IH.
      apply Exists_cons in H as [H | H]; [| done].
      destruct (doFilter_not_record item k v H) as [kind Hk]. congruence.
    + rewrite bind_Panic. destruct (doFilter_panic _ _ _ _ E) as [kind ->].
      eauto.
Qed.

Lemma filter_items_no_ErrorValue k v items res msg :
  filter_items k v items res <> Panic (ErrorValue msg).
Proof.
  revert res. induction items as [| item items IH]; intros res; [done |].
  simpl. destruct (assert_string k) as [key | p] eqn:Ek.
  - rewrite bind_Ret. destruct (doFilter item key v) as [b | p] eqn:E.
    + rewrite bind_Ret. apply IH.
    + rewrite bind_Panic. destruct (doFilter_panic _ _ _ _ E) as [kind ->].
      done.
  - rewrite bind_Panic. destruct k; simpl in Ek; congruence.
Qed.

Lemma mustFilter_no_ErrorValue k v coll msg :
  mustFilter k v coll <> Panic (ErrorValue msg).
Proof.
  unfold mustFilter. destruct (TypeOf coll) as [t |]; [| done].
  destruct t; simpl; try done.
  - pose proof (filter_items_no_ErrorValue k v (Elements coll) [] msg).
    destruct (filter_items k v (Elements coll) []); simpl; congruence.
  - pose proof (filter_items_no_ErrorValue k v (Elements coll) [] msg).
    destruct (filter_items k v (Elements coll) []); simpl; congruence.
  - destruct (assert_string k) as [key | p] eqn:Ek.
    + rewrite bind_Ret. destruct (doFilter coll key v) as [b | p] eqn:E.
      * rewrite bind_Ret. by destruct b.
      * rewrite bind_Panic. destruct (doFilter_panic _ _ _ _ E) as [kind ->].
        done.
    + rewrite bind_Panic. destruct k; simpl in Ek; congruence.
Qed.

End filter_facts.

Section filter_claims.
Import reflect engine.

(** C1 (as the code has it): for a string predicate key, a sequence or
    array whose elements are maps, structs or non-nil pointers to
    structs is filtered to its matching elements in their original
    order; a map is one candidate, returned as a one-element sequence
    on a match and as the nil sequence otherwise; every other non-nil
    collection is reported by an error that names its kind. *)
Theorem mustFilter_by_shape (k : string) (v coll : value) :
  (is_sequence coll = true ->
   Forall (fun item => matchable item = true) (Elements coll) ->
   mustFilter (VString k) v coll =
   Ret (Some (List.filter (matches k v) (Elements coll)), None)) /\
  (forall kt et entries, coll = VMap kt et entries ->
   mustFilter (VString k) v coll =
   Ret (if matches k v coll then (Some [coll], None) else (None, None))) /\
  (forall t, TypeOf coll = Some t ->
   is_sequence coll = false -> kind_of t <> Map ->
   mustFilter (VString k) v coll =
   Ret (None, Some ("cannot filter on type " +:+ Kind_String (kind_of t)))).
Proof.
  split; [| split].
  - intros Hseq Hall.
    destruct coll; try discriminate; unfold mustFilter; simpl;
      rewrite filter_items_Ret by done; reflexivity.
  - intros kt et entries ->. unfold mustFilter, matches.
    cbn -[doFilter]. rewrite doFilter_map. by destruct (match_keys _ _ _).
  - intros t Ht Hseq Hmap. unfold mustFilter. rewrite Ht.
    destruct coll; simpl in *; try discriminate;
      injection Ht as <-; simpl in *; congruence.
Qed.

Lemma mustFilter_by_shape_witness :
  mustFilter (VString "name") (VString "x")
    (VSlice TInterface (Some [dynamic_map [("name", VString "x")];
                              dynamic_map [("name", VString "y")]])) =
    Ret (Some [dynamic_map [("name", VString "x")]], None) /\
  mustFilter (VString "name") (VString "x") (dynamic_map [("name", VString "y")]) =
    Ret (None, None) /\
  mustFilter (VString "name") (VString "x") (VInt 5) =
    Ret (None, Some "cannot filter on type int").
Proof.
  split; [| split].
  - apply (proj1 (mustFilter_by_shape "name" (VString "x")
             (VSlice TInterface (Some [dynamic_map [("name", VString "x")];
                                       dynamic_map [("name", VString "y")]])))).
    + reflexivity.
    + repeat constructor.
  - apply (proj1 (proj2 (mustFilter_by_shape "name" (VString "x")
             (dynamic_map [("name", VString "y")])))
             TString TInterface (Some [(VString "name", VString "y")])).
    reflexivity.
  - apply (proj2 (proj2 (mustFilter_by_shape "name" (VString "x") (VInt 5)))
             TInt); [reflexivity | reflexivity | discriminate].
Defined.

(** C1, as stated, fails: a sequence of integers makes [mustFilter]
    panic in the field lookup, and so does the nil collection in
    [TypeOf(list).Kind()]; neither returns a sequence or an error. *)
Lemma mustFilter_panics_on_integers :
  mustFilter (VString "name") (VString "x") (VSlice TInt (Some [VInt 1])) =
    Panic (ValueError "reflect.Value.FieldByName" "int") /\
  mustFilter (VString "name") (VString "x") VNil = Panic NilDereference.
Proof. split; reflexivity. Qed.

(** C7 (as the code has it): [filter] returns exactly the sequences
    [mustFilter] returns without an error; it panics with the error
    exactly when [mustFilter] reports one, which is exactly when the
    collection is non-nil and neither a sequence, an array nor a map;
    and where [mustFilter] itself panics, [filter] panics the same
    way.  There is no other way for [filter] to abort. *)
Theorem filter_mustFilter (k v coll : value) :
  (forall l, engine.filter k v coll = Ret l <->
             mustFilter k v coll = Ret (l, None)) /\
  (forall err, engine.filter k v coll = Panic (ErrorValue err) <->
               exists l, mustFilter k v coll = Ret (l, Some err)) /\
  (forall err, (exists l, mustFilter k v coll = Ret (l, Some err)) <->
     exists t, TypeOf coll = Some t /\
               is_sequence coll = false /\ kind_of t <> Map /\
               err = "cannot filter on type " +:+ Kind_String (kind_of t)) /\
  (forall p, mustFilter k v coll = Panic p ->
             engine.filter k v coll = Panic p) /\
  (panics (engine.filter k v coll) <->
     panics (mustFilter k v coll) \/
     exists l err, mustFilter k v coll = Ret (l, Some err)).
Proof.
  split; [| split; [| split; [| split]]].
  - intros l. unfold engine.filter.
    destruct (mustFilter k v coll) as [[l' [e |]] | p]; simpl;
      split; intros H; try discriminate; congruence.
  - intros err. unfold engine.filter.
    pose proof (mustFilter_no_ErrorValue k v coll err) as Hne.
    destruct (mustFilter k v coll) as [[l' [e |]] | p]; simpl; split.
    + intros [= ->]. eauto.
    + intros [l [= _ ->]]. done.
    + discriminate.
    + intros [l [=]].
    + intros [= ->]. done.
    + intros [l [=]].
  - intros err. unfold mustFilter. split.
    + intros [l H]. destruct (TypeOf coll) as [t |] eqn:Ht; [| discriminate].
      exists t. split; [done |].
      destruct coll as [| | | | ? els | ? els | kt et entries | |];
        cbn -[doFilter] in *; try discriminate;
        injection Ht as <-; cbn -[doFilter] in *;
        try (injection H as _ <-; repeat split; done).
      * destruct (filter_items k v (elems els) []); discriminate.
      * destruct (filter_items k v els []); discriminate.
      * destruct (assert_string k) as [s |]; [| discriminate].
        cbn -[doFilter] in H. rewrite doFilter_map in H.
        cbn in H. destruct (match_keys _ _ _); discriminate.
    + intros (t & Ht & Hseq & Hmap & ->). rewrite Ht.
      destruct coll; simpl in *; try discriminate;
        injection Ht as <-; simpl in *; try congruence; eauto.
  - intros p H. unfold engine.filter. by rewrite H.
  - unfold engine.filter.
    destruct (mustFilter k v coll) as [[l' [e |]] | p]; simpl; split;
      try tauto; eauto.
    intros [[] | (l & err & [=])].
Qed.

(** C7, as stated, fails: with a key that is not a string and a
    non-empty sequence, [filter] aborts although [mustFilter] reports
    no error; [mustFilter] aborts itself, in the type assertion. *)
Lemma filter_aborts_without_error :
  panics (engine.filter (VInt 5) (VString "x") (VSlice TInt (Some [VInt 1]))) /\
  mustFilter (VInt 5) (VString "x") (VSlice TInt (Some [VInt 1])) =
    Panic (TypeAssertionError (Some "int")) /\
  ~ (exists l err,
       mustFilter (VInt 5) (VString "x") (VSlice TInt (Some [VInt 1])) =
       Ret (l, Some err)).
Proof.
  split; [exact I | split; [reflexivity |]]. intros (l & err & H).
  discriminate H.
Qed.

(** C9: with a string predicate key, a sequence or array holding an
    element that is neither a map, a struct nor a pointer to a struct
    makes [mustFilter] panic in [FieldByName]. *)
Theorem mustFilter_aborts_on_scalar (k : string) (v coll : value) :
  is_sequence coll = true ->
  Exists (fun item => record_like item = false) (Elements coll) ->
  exists kind, mustFilter (VString k) v coll =
               Panic (ValueError "reflect.Value.FieldByName" kind).
Proof.
  intros Hseq Hex.
  destruct (filter_items_panic k v (Elements coll) [] Hex) as [kind Hk].
  exists kind.
  destruct coll; try discriminate; unfold mustFilter; simpl in *;
    by rewrite Hk.
Qed.

Lemma mustFilter_aborts_on_scalar_witness :
  exists kind,
    mustFilter (VString "name") (VString "x")
      (VSlice TInterface (Some [VString "a"; VInt 2])) =
    Panic (ValueError "reflect.Value.FieldByName" kind).
Proof.
  apply (mustFilter_aborts_on_scalar "name" (VString "x")
           (VSlice TInterface (Some [VString "a"; VInt 2]))).
  - reflexivity.
  - apply Exists_cons_hd. reflexivity.
Defined.

(** C10: a predicate key that is not a string makes [mustFilter] panic
    in the type assertion on a non-empty sequence or array and on a
    map; on an empty sequence or array the assertion is not reached and
    the result is the empty sequence without an error. *)
Theorem mustFilter_key_not_string (k v coll : value) :
  TypeOf k <> Some TString ->
  (is_sequence coll = true -> Elements coll <> [] ->
   mustFilter k v coll =
   Panic (TypeAssertionError (type_String <$> TypeOf k))) /\
  (forall kt et entries, coll = VMap kt et entries ->
   mustFilter k v coll =
   Panic (TypeAssertionError (type_String <$> TypeOf k))) /\
  (is_sequence coll = true -> Elements coll = [] ->
   mustFilter k v coll = Ret (Some [], None)).
Proof.
  intros Hk. pose proof (assert_string_not_string k Hk) as Ha.
  split; [| split].
  - intros Hseq Hne.
    destruct coll; try discriminate; unfold mustFilter; simpl in *.
    + destruct (elems els); [done |]. simpl. by rewrite Ha.
    + destruct els; [done |]. simpl. by rewrite Ha.
  - intros kt et entries ->. unfold mustFilter. simpl. by rewrite Ha.
  - intros Hseq Hnil.
    destruct coll; try discriminate; unfold mustFilter; simpl in *;
      by rewrite Hnil.
Qed.

Lemma mustFilter_key_not_string_witness :
  mustFilter (VInt 7) (VString "x") (VSlice TInterface (Some [VInt 1])) =
    Panic (TypeAssertionError (Some "int")) /\
  mustFilter (VInt 7) (VString "x") (VMap TString TInterface None) =
    Panic (TypeAssertionError (Some "int")) /\
  mustFilter (VInt 7) (VString "x") (VSlice TInterface (Some [])) =
    Ret (Some [], None).
Proof.
  assert (Hk : TypeOf (VInt 7) <> Some TString) by discriminate.
  split; [| split].
  - apply (mustFilter_key_not_string (VInt 7) (VString "x")
             (VSlice TInterface (Some [VInt 1])) Hk); [reflexivity | discriminate].
  - apply (proj1 (proj2 (mustFilter_key_not_string (VInt 7) (VString "x")
             (VMap TString TInterface None) Hk))
             TString TInterface None). reflexivity.
  - apply (mustFilter_key_not_string (VInt 7) (VString "x")
             (VSlice TInterface (Some [])) Hk); reflexivity.
Defined.

End filter_claims.

Section match_rule.
Import reflect engine.

Lemma DeepEqual_VString s v :
  DeepEqual (VString s) v = true <-> v = VString s.
Proof.
  destruct v; simpl; try (split; [discriminate | congruence]).
  rewrite bool_decide_eq_true. split; congruence.
Qed.




End match_rule.

(** * Properties of the conversions *)

Section conversion_claims.
Import reflect engine.

Lemma decode_loop_decodes (d : Decoder) s docs fin :
  decodes d s docs fin ->
  forall fuel li, pending d s < fuel ->
  decode_loop d fuel s li =
  Some (match fin with
        | AtEOF => match docs with
                   | [] => li
                   | _ => Some (elems li ++ docs)
                   end
        | AtError m err => Some [Some (<["Error" := VString err]> m)]
        end).
Proof.
  induction 1 as [s s' E | s s' m err E | s s' m docs fin E Hrun IH];
    intros fuel li Hfuel; (destruct fuel as [| fuel]; [lia |]); simpl;
    rewrite E; [done | done |].
  rewrite IH by (apply Decode_progress in E; lia).
  destruct fin; [| done]. unfold append. simpl.
  destruct docs; by rewrite <- ?app_assoc.
Qed.

Lemma decodes_total (d : Decoder) (s : stream d) :
  exists docs fin, decodes d s docs fin.
Proof.
  remember (pending d s) as n eqn:Hn. revert s Hn.
  induction n as [n IH] using lt_wf_ind. intros s ->.
  destruct (Decode d s ∅) as [s' [m | | m err]] eqn:E.
  - destruct (IH (pending d s') (Decode_progress d _ _ _ _ E) s' eq_refl)
      as (docs & fin & Hrun).
    exists (m :: docs), fin. by eapply decodes_Doc.
  - exists [], AtEOF. by eapply decodes_EOF.
  - exists [], (AtError m err). by eapply decodes_Err.
Qed.

(** C3: [fromYamlDocument] always returns.  When the decoder yields the
    documents [docs] and then reports end-of-input, the result is
    [docs] in this order (the nil sequence when there is none); when a
    decode fails after any number of documents, the result is the one
    map the failed decode was writing to, with the error description
    under the key Error, and no earlier document. *)
Theorem fromYamlDocument_documents (k8syaml : Decoder) (str : string) :
  (exists docs fin,
     decodes k8syaml (NewYAMLOrJSONDecoder k8syaml str) docs fin) /\
  (forall docs,
     decodes k8syaml (NewYAMLOrJSONDecoder k8syaml str) docs AtEOF ->
     fromYamlDocument k8syaml str =
     Some (match docs with [] => None | _ => Some docs end)) /\
  (forall docs m err,
     decodes k8syaml (NewYAMLOrJSONDecoder k8syaml str) docs (AtError m err) ->
     exists m',
       fromYamlDocument k8syaml str = Some (Some [Some m']) /\
       m' = <["Error" := VString err]> m /\
       m' !! "Error" = Some (VString err)).
Proof.
  split; [apply decodes_total | split].
  - intros docs Hrun. unfold fromYamlDocument.
    rewrite (decode_loop_decodes _ _ _ _ Hrun) by lia. by destruct docs.
  - intros docs m err Hrun. eexists. split; [| split; [reflexivity |]].
    + unfold fromYamlDocument.
      by rewrite (decode_loop_decodes _ _ _ _ Hrun) by lia.
    + apply lookup_insert_eq.
Qed.

Lemma fromYamlDocument_documents_witness :
  fromYamlDocument letters "ab" =
    Some (Some [Some {["doc" := VString "a"]}; Some {["doc" := VString "b"]}]) /\
  exists m',
    fromYamlDocument letters "ab!c" = Some (Some [Some m']) /\
    m' = <["Error" := VString "yaml: did not find expected node"]> ∅ /\
    m' !! "Error" = Some (VString "yaml: did not find expected node").
Proof.
  split.
  - apply (proj1 (proj2 (fromYamlDocument_documents letters "ab"))
             [Some {["doc" := VString "a"]}; Some {["doc" := VString "b"]}]).
    eapply decodes_Doc; [reflexivity |].
    eapply decodes_Doc; [reflexivity |].
    eapply decodes_EOF. reflexivity.
  - apply (proj2 (proj2 (fromYamlDocument_documents letters "ab!c"))
             [Some {["doc" := VString "a"]}; Some {["doc" := VString "b"]}]).
    eapply decodes_Doc; [reflexivity |].
    eapply decodes_Doc; [reflexivity |].
    eapply decodes_Err. reflexivity.
Defined.

(** C4 (as the code has it): when parsing fails, [fromYAML] and
    [fromJSON] return the map as the parser left it, with the parser's
    non-empty error description under the key Error; this is the only
    entry when the parser had stored nothing else. *)
Theorem fromYAML_fromJSON_failure (yaml json : Codec) (str : string) :
  (forall m err,
     Unmarshal_map yaml str ∅ = Failed m err ->
     fromYAML yaml str = Some (<["Error" := VString err]> m) /\
     err <> EmptyString /\
     ((forall key, key <> "Error" -> m !! key = None) ->
      fromYAML yaml str = Some {["Error" := VString err]})) /\
  (forall m err,
     Unmarshal_map json str ∅ = Failed m err ->
     fromJSON json str = Some (<["Error" := VString err]> m) /\
     err <> EmptyString /\
     ((forall key, key <> "Error" -> m !! key = None) ->
      fromJSON json str = Some {["Error" := VString err]})).
Proof.
  assert (Hone : forall (m : gmap string value) x,
            (forall key, key <> "Error" -> m !! key = None) ->
            <["Error" := x]> m = {["Error" := x]}).
  { intros m x Hm. apply map_eq. intros key.
    destruct (decide (key = "Error")) as [-> | Hne].
    - by rewrite lookup_insert_eq, lookup_singleton_eq.
    - rewrite lookup_insert_ne, lookup_singleton_ne by done. by apply Hm. }
  split; intros m err E.
  - unfold fromYAML. rewrite E. split; [done | split].
    + by eapply Unmarshal_map_error.
    + intros Hm. by rewrite Hone.
  - unfold fromJSON. rewrite E. split; [done | split].
    + by eapply Unmarshal_map_error.
    + intros Hm. by rewrite Hone.
Qed.

Lemma fromYAML_fromJSON_failure_witness :
  fromYAML mini_yaml "not: valid: yaml: :" =
    Some {["Error" := VString ("error unmarshaling JSON: " +:+ not_an_object)]} /\
  fromJSON mini_json "{bad" = Some {["Error" := VString not_an_object]}.
Proof.
  split.
  - refine (proj2 (proj2 (proj1 (fromYAML_fromJSON_failure mini_yaml mini_json
              "not: valid: yaml: :") ∅ _ _)) _); [reflexivity |].
    intros key _. apply lookup_empty.
  - refine (proj2 (proj2 (proj2 (fromYAML_fromJSON_failure mini_yaml mini_json
              "{bad") ∅ _ _)) _); [reflexivity |].
    intros key _. apply lookup_empty.
Defined.

(** C4, as stated, fails: the helpers discard nothing.  Where the
    parser stores fields before it reports a failure, as encoding/json
    does for a number out of range, the returned map has these fields
    next to the Error entry. *)
Lemma fromJSON_keeps_stored_fields :
  exists m,
    fromJSON json_number_range number_out_of_range = Some m /\
    m !! "a" = Some (VBool true) /\
    m !! "b" = Some VNil /\
    is_Some (m !! "Error") /\
    size m = 3.
Proof.
  eexists. split; [reflexivity |]. repeat split; try reflexivity.
  by eexists.
Qed.

(** C5: when parsing fails, [fromYAMLArray] and [fromJSONArray] return
    the one-element sequence whose element is the error description,
    as a string. *)
Theorem fromArray_failure (yaml json : Codec) (str : string) :
  (forall a err,
     Unmarshal_slice yaml str [] = Failed a err ->
     fromYAMLArray yaml str = Some [VString err]) /\
  (forall a err,
     Unmarshal_slice json str [] = Failed a err ->
     fromJSONArray json str = Some [VString err]).
Proof.
  split; intros a err E.
  - unfold fromYAMLArray. by rewrite E.
  - unfold fromJSONArray. by rewrite E.
Qed.

Lemma fromArray_failure_witness :
  fromYAMLArray mini_yaml "{bad" =
    Some [VString ("error unmarshaling JSON: " +:+ not_an_array)] /\
  fromJSONArray mini_json "{bad" = Some [VString not_an_array].
Proof.
  split.
  - apply (proj1 (fromArray_failure mini_yaml mini_json "{bad") []).
    reflexivity.
  - apply (proj2 (fromArray_failure mini_yaml mini_json "{bad") []).
    reflexivity.
Defined.

(** C6: when encoding fails, [toYAML] and [toJSON] return the empty
    string and [toTOML] returns the text of the error; each of the
    three is a function to [string], with no error result. *)
Theorem encode_failure (yaml json : Codec) (toml : Encoder) (v : value) :
  (forall data err, Marshal yaml v = (data, Some err) -> toYAML yaml v = EmptyString) /\
  (forall data err, Marshal json v = (data, Some err) -> toJSON json v = EmptyString) /\
  (forall b err, Encode toml v = (b, Some err) -> toTOML toml v = err).
Proof.
  split; [| split].
  - intros data err E. unfold toYAML. by rewrite E.
  - intros data err E. unfold toJSON. by rewrite E.
  - intros b err E. unfold toTOML. by rewrite E.
Qed.

Lemma encode_failure_witness :
  toYAML mini_yaml (VMap TBool TInterface (Some [])) = EmptyString /\
  toJSON mini_json (VMap TBool TInterface (Some [])) = EmptyString /\
  toTOML mini_toml (VInt 1) =
    "toml: top-level values must be Go maps or structs".
Proof.
  split; [| split].
  - apply (proj1 (encode_failure mini_yaml mini_json mini_toml
                    (VMap TBool TInterface (Some [])))
             EmptyString "error marshaling into JSON: json: unsupported type").
    reflexivity.
  - apply (proj1 (proj2 (encode_failure mini_yaml mini_json mini_toml
                           (VMap TBool TInterface (Some []))))
             EmptyString "json: unsupported type").
    reflexivity.
  - apply (proj2 (proj2 (encode_failure mini_yaml mini_json mini_toml (VInt 1)))
             EmptyString "toml: top-level values must be Go maps or structs").
    reflexivity.
Defined.

End conversion_claims.

(** * Deep equality of decoded maps *)

Section deep_equality.
Import reflect engine.

Lemma key_equal_refl : forall k, key_equal k k = true.
Proof.
  fix IH 1. intros k.
  destruct k as [| b | n | s | e [l |] | e l | kt et [l |] | e [x |]
                 | name fields];
    simpl; try by repeat case_bool_decide.
  - rewrite bool_decide_true by done. simpl.
    induction l as [| x l IHl]; [done |]. by rewrite (IH x), IHl.
  - rewrite bool_decide_true by done. simpl.
    induction l as [| x l IHl]; [done |]. by rewrite (IH x), IHl.
  - rewrite !bool_decide_true by done. simpl.
    induction l as [| [k x] l IHl]; [done |]. by rewrite (IH k), (IH x), IHl.
  - rewrite bool_decide_true by done. simpl. apply IH.
  - rewrite bool_decide_true by done. simpl.
    induction fields as [| [a [t x]] l IHl]; [done |].
    rewrite !bool_decide_true by done. simpl. by rewrite (IH x), IHl.
Qed.

Lemma deepValueEqual_refl :
  forall v, well_formed v = true -> deepValueEqual v v = true.
Proof.
  fix IH 1. intros v.
  destruct v as [| b | n | s | e [l |] | e l | kt et [l |] | e [x |]
                 | name fields];
    simpl; intros Hwf; try by repeat case_bool_decide.
  - rewrite bool_decide_true by done. simpl.
    induction l as [| x l IHl]; [done |].
    apply andb_prop in Hwf as [Hx Hl]. by rewrite (IH x Hx), (IHl Hl).
  - rewrite bool_decide_true by done. simpl.
    induction l as [| x l IHl]; [done |].
    apply andb_prop in Hwf as [Hx Hl]. by rewrite (IH x Hx), (IHl Hl).
  - rewrite !bool_decide_true by done. simpl.
    assert (Hall : forall k x, In (k, x) l ->
              map_index l k = Some x /\ deepValueEqual x x = true).
    { induction l as [| [k0 x0] l IHl]; [by intros ? ? [] |].
      apply andb_prop in Hwf as [Hwf Hl].
      apply andb_prop in Hwf as [Hfresh Hx].
      intros k x [[= <- <-] | Hin]; simpl.
      - rewrite key_equal_refl. split; [done |]. by apply IH.
      - destruct (key_equal k0 k) eqn:Ek.
        + apply negb_true_iff in Hfresh.
          assert (existsb (fun kv => key_equal k0 (fst kv)) l = true);
            [| congruence].
          apply existsb_exists. by exists (k, x).
        + by apply IHl. }
    clear Hwf.
    assert (Heach : forall l1,
              (forall k x, In (k, x) l1 ->
                 map_index l k = Some x /\ deepValueEqual x x = true) ->
              (fix each (l1 : list (value * value)) : bool :=
                 match l1 with
                 | [] => true
                 | (k, x) :: l1' =>
                     match map_index l k with
                     | Some y => deepValueEqual x y
                     | None => false
                     end && each l1'
                 end) l1 = true).
    { induction l1 as [| [k x] l1 IHl1]; intros Hl1; [done |].
      destruct (Hl1 k x (or_introl eq_refl)) as [-> ->]. simpl.
      apply IHl1. intros k' x' Hin. apply Hl1. by right. }
    by apply Heach.
  - rewrite bool_decide_true by done. simpl. by apply IH.
  - rewrite bool_decide_true by done. simpl.
    induction fields as [| [a [t x]] l IHl]; [done |].
    apply andb_prop in Hwf as [Hx Hl].
    rewrite !bool_decide_true by done. simpl. by rewrite (IH x Hx), (IHl Hl).
Qed.

Lemma DeepEqual_refl x : well_formed x = true -> DeepEqual x x = true.
Proof.
  intros Hwf. pose proof (deepValueEqual_refl x Hwf) as H.
  unfold DeepEqual. destruct x; try done; by rewrite bool_decide_true.
Qed.

Example DeepEqual_composite_keys :
  DeepEqual
    (VMap (TArray 2 TInt) TString
       (Some [(VArray TInt [VInt 1; VInt 2], VString "a");
              (VArray TInt [VInt 3; VInt 4], VString "b")]))
    (VMap (TArray 2 TInt) TString
       (Some [(VArray TInt [VInt 3; VInt 4], VString "b");
              (VArray TInt [VInt 1; VInt 2], VString "a")])) = true /\
  DeepEqual
    (VMap TInterface TInt
       (Some [(VNil, VInt 0); (VStruct "engine.key" [("N", (TInt, VInt 1))],
                               VInt 1)]))
    (VMap TInterface TInt
       (Some [(VNil, VInt 0); (VStruct "engine.key" [("N", (TInt, VInt 1))],
                               VInt 1)])) = true.
Proof. split; reflexivity. Qed.

End deep_equality.

Section decoded_maps.
Import reflect engine.





End decoded_maps.

(** * Further properties *)

(** ** The function table *)

Section function_table.
Import engine.
Context {F : Type}.

Lemma assign_all_lookup (order : list (string * helper))
    (f : gmap string (func F)) (name : string) :
  NoDup (fst <$> order) ->
  assign_all order f !! name =
  match (list_to_map order : gmap string helper) !! name with
  | Some h => Some (Helper h)
  | None => f !! name
  end.
Proof.
  unfold assign_all. revert f.
  induction order as [| [k h] order IH]; intros f Hnd; simpl.
  - by rewrite lookup_empty.
  - apply NoDup_cons in Hnd as [Hfresh Hnd]. rewrite IH by done.
    destruct (decide (k = name)) as [-> | Hne].
    + rewrite lookup_insert_eq.
      rewrite (not_elem_of_list_to_map_1 (M := gmap string)) by done.
      by rewrite lookup_insert_eq.
    + rewrite !lookup_insert_ne by done. done.
Qed.

Lemma extra_NoDup : NoDup (fst <$> extra).
Proof. by apply (bool_decide_unpack _); vm_compute. Qed.

(** X1: whatever sprig supplies and in whatever order the range over
    [extra] runs, the table binds each of the fourteen names of [extra]
    to the helper (a sprig function of the same name is replaced), has
    no entry [env] or [expandenv], and binds every other name as sprig
    does. *)
Theorem funcMap_bindings (TxtFuncMap : gmap string F)
    (order : list (string * helper)) :
  order ≡ₚ extra ->
  (forall name h, (name, h) ∈ extra ->
     funcMap TxtFuncMap order !! name = Some (Helper h)) /\
  funcMap TxtFuncMap order !! "env" = None /\
  funcMap TxtFuncMap order !! "expandenv" = None /\
  (forall name, name ∉ (fst <$> extra) ->
     name <> "env" -> name <> "expandenv" ->
     funcMap TxtFuncMap order !! name = Sprig <$> TxtFuncMap !! name).
Proof.
  intros Hperm.
  assert (Hnd : NoDup (fst <$> order)).
  { rewrite Hperm. apply extra_NoDup. }
  assert (Hmap : (list_to_map order : gmap string helper) = list_to_map extra).
  { by apply list_to_map_proper. }
  assert (Hlook : forall name,
            funcMap TxtFuncMap order !! name =
            match (list_to_map extra : gmap string helper) !! name with
            | Some h => Some (Helper h)
            | None =>
                delete "expandenv" (delete "env" (Sprig <$> TxtFuncMap))
                  !! name
            end).
  { intros name. unfold funcMap. rewrite assign_all_lookup by done.
    by rewrite Hmap. }
  split; [| split; [| split]].
  - intros name h Hin. rewrite Hlook.
    by rewrite (elem_of_list_to_map_1 (M := gmap string) _ _ _ extra_NoDup Hin).
  - rewrite Hlook. simpl. by rewrite lookup_delete_ne, lookup_delete_eq.
  - rewrite Hlook. simpl. by rewrite lookup_delete_eq.
  - intros name Hout Henv Hexp. rewrite Hlook.
    rewrite (not_elem_of_list_to_map_1 (M := gmap string)) by done.
    rewrite !lookup_delete_ne by done. by rewrite lookup_fmap.
Qed.

End function_table.

Lemma funcMap_bindings_witness :
  engine.funcMap (F := nat) {["env" := 1; "toJson" := 2; "upper" := 3]}
          (reverse engine.extra) !! "toJson" = Some (engine.Helper engine.HtoJSON) /\
  engine.funcMap (F := nat) {["env" := 1; "toJson" := 2; "upper" := 3]}
          (reverse engine.extra) !! "env" = None /\
  engine.funcMap (F := nat) {["env" := 1; "toJson" := 2; "upper" := 3]}
          (reverse engine.extra) !! "upper" = Some (engine.Sprig 3).
Proof.
  pose proof (funcMap_bindings (F := nat)
                {["env" := 1; "toJson" := 2; "upper" := 3]}
                (reverse engine.extra) (reverse_Permutation _))
    as (Hextra & Henv & _ & Hother).
  split; [| split].
  - apply Hextra. by apply (bool_decide_unpack _); vm_compute.
  - exact Henv.
  - rewrite Hother; [reflexivity | | discriminate | discriminate].
    by apply (bool_decide_unpack _); vm_compute.
Defined.

(** ** Trailing newlines *)

Lemma HasSuffix_unfold s suffix :
  HasSuffix s suffix =
  String.eqb s suffix ||
  match s with
  | EmptyString => false
  | String _ s' => HasSuffix s' suffix
  end.
Proof. by destruct s. Qed.

Lemma TrimSuffix_unfold s suffix :
  TrimSuffix s suffix =
  if String.eqb s suffix then EmptyString
  else match s with
       | EmptyString => EmptyString
       | String c s' => String c (TrimSuffix s' suffix)
       end.
Proof. by destruct s. Qed.

Lemma HasSuffix_false s suffix :
  HasSuffix s suffix = false -> TrimSuffix s suffix = s.
Proof.
  induction s as [| c s IH]; rewrite HasSuffix_unfold, TrimSuffix_unfold;
    intros H; apply orb_false_iff in H as [He Hs]; rewrite He; [done |].
  by rewrite IH.
Qed.

Lemma HasSuffix_true s suffix :
  HasSuffix s suffix = true -> exists p, s = p +:+ suffix.
Proof.
  induction s as [| c s IH]; rewrite HasSuffix_unfold; intros H;
    apply orb_true_iff in H as [He | Hs].
  - apply String.eqb_eq in He as <-. by exists EmptyString.
  - discriminate.
  - apply String.eqb_eq in He as <-. by exists EmptyString.
  - destruct (IH Hs) as [p ->]. by exists (String c p).
Qed.

(** X2: when the value encodes, [toYAML] returns the encoder's text
    without its last newline: a text that ends in a newline loses
    exactly that one character, any other text is returned as it is. *)
Theorem toYAML_trailing_newline (yaml : Codec) (v : reflect.value)
    (data : string) :
  Marshal yaml v = (data, None) ->
  (HasSuffix data newline = true ->
   engine.toYAML yaml v +:+ newline = data) /\
  (HasSuffix data newline = false -> engine.toYAML yaml v = data).
Proof.
  intros Hm. unfold engine.toYAML. rewrite Hm. split; intros H.
  - destruct (HasSuffix_true _ _ H) as [p ->]. by rewrite TrimSuffix_app.
  - by apply HasSuffix_false.
Qed.

Lemma toYAML_trailing_newline_witness :
  engine.toYAML mini_yaml (reflect.VString "a: 1") +:+ newline =
    "a: 1" +:+ newline /\
  engine.toYAML mini_json (reflect.VString "a: 1") =
    quote +:+ "a: 1" +:+ quote.
Proof.
  split.
  - apply (proj1 (toYAML_trailing_newline mini_yaml (reflect.VString "a: 1")
                    ("a: 1" +:+ newline) eq_refl)).
    reflexivity.
  - apply (proj2 (toYAML_trailing_newline mini_json (reflect.VString "a: 1")
                    (quote +:+ "a: 1" +:+ quote) eq_refl)).
    reflexivity.
Defined.

(** ** More on the filter *)

Section filter_algebra.
Import reflect engine.

Lemma mustFilter_sequence k v coll :
  is_sequence coll = true ->
  mustFilter k v coll =
  (filter_items k v (Elements coll) [] ≫= fun res => Ret (Some res, None)).
Proof. destruct coll; try discriminate; reflexivity. Qed.

Lemma filter_items_Ret_inv k v items res r :
  filter_items (VString k) v items res = Ret r ->
  Forall (fun item => matchable item = true) items.
Proof.
  revert res. induction items as [| item items IH]; intros res H; [done |].
  simpl in H. destruct (doFilter item k v) as [b | p] eqn:E;
    [| discriminate].
  rewrite !bind_Ret in H.
  constructor; [| exact (IH _ H)].
  apply (doFilter_matchable item k v). rewrite E. simpl. tauto.
Qed.

Lemma list_filter_and {A : Type} (f g : A -> bool) (l : list A) :
  List.filter g (List.filter f l) = List.filter (fun x => f x && g x) l.
Proof.
  induction l as [| x l IH]; [done |]. simpl.
  destruct (f x); simpl; [destruct (g x) |]; by rewrite IH.
Qed.

Lemma Forall_list_filter {A : Type} (P : A -> Prop) (f : A -> bool) l :
  Forall P l -> Forall P (List.filter f l).
Proof.
  induction 1 as [| x l Hx Hl IH]; simpl; [done |].
  destruct (f x); [by constructor | done].
Qed.

(** X3: over elements whose structs have no embedded fields, and with
    a string key, [mustFilter] returns on a sequence or array exactly
    when every element is a map, a struct or a non-nil pointer to a
    struct; what it returns is then the matching elements in order,
    without an error, and what it panics with otherwise is the
    [FieldByName] error of reflect (also for a nil pointer to a
    struct). *)
Theorem mustFilter_returns_iff (k : string) (v coll : value) :
  is_sequence coll = true ->
  ((exists r, mustFilter (VString k) v coll = Ret r) <->
   Forall (fun item => matchable item = true) (Elements coll)) /\
  (forall r, mustFilter (VString k) v coll = Ret r ->
     r = (Some (List.filter (matches k v) (Elements coll)), None)) /\
  (forall p, mustFilter (VString k) v coll = Panic p ->
     exists kind, p = ValueError "reflect.Value.FieldByName" kind).
Proof.
  intros Hseq. rewrite (mustFilter_sequence _ _ _ Hseq).
  split; [split | split].
  - intros [r H].
    destruct (filter_items (VString k) v (Elements coll) []) as [res | p]
      eqn:E; [| discriminate].
    by eapply filter_items_Ret_inv.
  - intros Hall. rewrite filter_items_Ret by done. eauto.
  - intros r H.
    destruct (filter_items (VString k) v (Elements coll) []) as [res | p]
      eqn:E; [| discriminate].
    rewrite filter_items_Ret in E
      by (by eapply filter_items_Ret_inv).
    injection E as <-. by injection H as <-.
  - intros p H.
    destruct (filter_items (VString k) v (Elements coll) []) as [res | q]
      eqn:E; [discriminate |].
    injection H as <-.
    revert E. generalize (@nil value).
    induction (Elements coll) as [| item items IH]; intros res E;
      [discriminate |].
    simpl in E. destruct (doFilter item k v) as [b | p] eqn:Ed.
    + rewrite !bind_Ret in E. exact (IH _ E).
    + injection E as <-. by eapply doFilter_panic.
Qed.

Lemma mustFilter_returns_iff_witness :
  (exists r,
     mustFilter (VString "Name") (VString "web")
       (VArray (TStruct "engine.service")
          [VStruct "engine.service" [("Name", (TString, VString "web"))]])
     = Ret r) <->
  Forall (fun item => matchable item = true)
    [VStruct "engine.service" [("Name", (TString, VString "web"))]].
Proof.
  apply (mustFilter_returns_iff "Name" (VString "web")
           (VArray (TStruct "engine.service")
              [VStruct "engine.service"
                 [("Name", (TString, VString "web"))]])).
  reflexivity.
Defined.

(** *** The same elements in another call *)

Lemma reordered_refl x : reordered x x.
Proof. destruct x as [| | | | | | ? ? [l |] | |]; simpl; done. Qed.

Lemma reordered_sym x y : reordered x y -> reordered y x.
Proof.
  destruct x as [| | | | | | ? ? [l1 |] | |],
           y as [| | | | | | ? ? [l2 |] | |]; simpl; try done.
  by intros (-> & -> & ->).
Qed.

Lemma reordered_trans x y z : reordered x y -> reordered y z -> reordered x z.
Proof.
  destruct x as [| | | | | | ? ? [l1 |] | |],
           y as [| | | | | | ? ? [l2 |] | |]; simpl; try done;
    try (by intros <-); try (by intros ->).
  intros (-> & -> & H12).
  destruct z as [| | | | | | ? ? [l3 |] | |]; simpl; try done.
  intros (-> & -> & H23). repeat split. by etrans.
Qed.

Lemma key_strings_Permutation kt l1 l2 :
  l1 ≡ₚ l2 -> key_strings kt l1 ≡ₚ key_strings kt l2.
Proof. intros H. unfold key_strings. by apply Permutation_map. Qed.

Lemma keys_distinct_reordered x y :
  keys_distinct x = true -> reordered x y -> keys_distinct y = true.
Proof.
  destruct x as [| | | | | | ? ? [l1 |] | |],
           y as [| | | | | | ? ? [l2 |] | |]; simpl; try done.
  intros Hd (-> & -> & Hp). apply bool_decide_eq_true in Hd.
  apply bool_decide_eq_true.
  by rewrite <- (key_strings_Permutation _ _ _ Hp).
Qed.

Lemma matchable_reordered x y : reordered x y -> matchable x = matchable y.
Proof.
  destruct x as [| | | | | | ? ? [l1 |] | |]; simpl; try (by intros <-).
  destruct y as [| | | | | | ? ? [l2 |] | |]; simpl; done.
Qed.

Lemma match_keys_by_string kt k v (l : list (value * value)) :
  match_keys k v (List.map (fun kv => (Val kt (fst kv), snd kv)) l) =
  match (list_to_map
           (List.map (fun kv => (Value_String (Val kt (fst kv)), snd kv)) l)
         : gmap string value) !! k with
  | Some x => DeepEqual x v
  | None => false
  end.
Proof.
  induction l as [| [key x] l IH]; [done |].
  cbn -[DeepEqual Value_String]. case_bool_decide as Hk.
  - rewrite Hk. by rewrite lookup_insert_eq.
  - by rewrite lookup_insert_ne.
Qed.

Lemma fst_keyed kt (l : list (value * value)) :
  fst <$> List.map (fun kv => (Value_String (Val kt (fst kv)), snd kv)) l =
  key_strings kt l.
Proof. induction l as [| [key x] l IH]; [done |]. simpl. by rewrite <- IH. Qed.

(** What [doFilter] says of an element whose keys print differently
    does not depend on the order in which the call sees the keys. *)
Lemma doFilter_reordered x y k v :
  keys_distinct x = true -> reordered x y -> doFilter x k v = doFilter y k v.
Proof.
  destruct x as [| | | | | | kt et [l1 |] | |]; simpl;
    try (by intros _ <-).
  destruct y as [| | | | | | kt' et' [l2 |] | |]; simpl; try done.
  intros Hd (<- & <- & Hp). apply bool_decide_eq_true in Hd.
  rewrite !doFilter_map. f_equal. unfold MapEntries.
  rewrite !match_keys_by_string.
  replace (list_to_map
             (List.map (fun kv => (Value_String (Val kt (fst kv)), snd kv)) l2)
           : gmap string value)
    with (list_to_map
            (List.map (fun kv => (Value_String (Val kt (fst kv)), snd kv)) l1)
          : gmap string value); [done |].
  apply list_to_map_proper.
  - by rewrite fst_keyed.
  - by apply Permutation_map.
Qed.

Lemma matches_reordered x y k v :
  keys_distinct x = true -> reordered x y -> matches k v x = matches k v y.
Proof.
  intros Hd Hr. unfold matches. by rewrite (doFilter_reordered x y k v Hd Hr).
Qed.

Lemma Forall2_reordered_refl l : Forall2 reordered l l.
Proof. induction l; constructor; [apply reordered_refl | done]. Qed.

Lemma Forall2_reordered_sym l1 l2 :
  Forall2 reordered l1 l2 -> Forall2 reordered l2 l1.
Proof. induction 1; constructor; [by apply reordered_sym | done]. Qed.

Lemma Forall2_reordered_trans l1 l2 l3 :
  Forall2 reordered l1 l2 -> Forall2 reordered l2 l3 ->
  Forall2 reordered l1 l3.
Proof.
  intros H. revert l3. induction H as [| x y l1 l2 Hxy _ IH]; intros l3 H23.
  - by inversion H23.
  - inversion H23 as [| ? z ? l3' Hyz H23']; subst.
    constructor; [by eapply reordered_trans | by apply IH].
Qed.

Lemma Forall_keys_distinct_reordered l1 l2 :
  Forall (fun x => keys_distinct x = true) l1 ->
  Forall2 reordered l1 l2 ->
  Forall (fun x => keys_distinct x = true) l2.
Proof.
  intros Hd H. induction H as [| x y l1 l2 Hxy _ IH]; [done |].
  apply Forall_cons in Hd as [Hx Hd].
  constructor; [by eapply keys_distinct_reordered | by apply IH].
Qed.

Lemma Forall_matchable_reordered l1 l2 :
  Forall (fun x => matchable x = true) l1 ->
  Forall2 reordered l1 l2 ->
  Forall (fun x => matchable x = true) l2.
Proof.
  intros Hm H. induction H as [| x y l1 l2 Hxy _ IH]; [done |].
  apply Forall_cons in Hm as [Hx Hm].
  constructor; [by rewrite <- (matchable_reordered x y) | by apply IH].
Qed.

Lemma filter_reordered k v l1 l2 :
  Forall (fun x => keys_distinct x = true) l1 ->
  Forall2 reordered l1 l2 ->
  Forall2 reordered (List.filter (matches k v) l1)
                    (List.filter (matches k v) l2).
Proof.
  intros Hd H. induction H as [| x y l1 l2 Hxy _ IH]; [constructor |].
  apply Forall_cons in Hd as [Hx Hd]. simpl.
  rewrite <- (matches_reordered x y k v Hx Hxy).
  destruct (matches k v x); [constructor |]; auto.
Qed.

(** What a successful call returns, and from what. *)
Lemma mustFilter_sequence_Ret k v coll res :
  is_sequence coll = true ->
  mustFilter (VString k) v coll = Ret (res, None) ->
  Forall (fun x => matchable x = true) (Elements coll) /\
  res = Some (List.filter (matches k v) (Elements coll)).
Proof.
  intros Hseq H. rewrite (mustFilter_sequence _ _ _ Hseq) in H.
  destruct (filter_items (VString k) v (Elements coll) []) as [r | p]
    eqn:E; [| discriminate].
  injection H as <-.
  pose proof (filter_items_Ret_inv _ _ _ _ _ E) as Hall.
  rewrite filter_items_Ret in E by done. by injection E as <-.
Qed.

Lemma mustFilter_slice_Ret k v e items :
  Forall (fun x => matchable x = true) items ->
  mustFilter (VString k) v (VSlice e (Some items)) =
  Ret (Some (List.filter (matches k v) items), None).
Proof.
  intros Hall.
  rewrite (mustFilter_sequence _ _ (VSlice e (Some items))) by done.
  simpl. by rewrite filter_items_Ret.
Qed.

Lemma list_filter_true {A : Type} (f : A -> bool) (l : list A) :
  Forall (fun x => f x = true) l -> List.filter f l = l.
Proof.
  induction 1 as [| x l Hx _ IH]; [done |]. simpl. by rewrite Hx, IH.
Qed.

Lemma list_filter_matches {A : Type} (f : A -> bool) (l : list A) :
  Forall (fun x => f x = true) (List.filter f l).
Proof.
  induction l as [| x l IH]; simpl; [done |].
  destruct (f x) eqn:E; [by constructor | done].
Qed.

(** X4: filtering a result once more by the same key and value drops
    nothing, in whatever order the second call sees the keys of the
    map elements, provided no two keys of such an element print the
    same [String()] (as with string keys). *)
Theorem mustFilter_idempotent (k : string) (v coll : value)
    (res : slice value) (again : list value) :
  mustFilter (VString k) v coll = Ret (res, None) ->
  Forall (fun x => keys_distinct x = true) (elems res) ->
  Forall2 reordered (elems res) again ->
  mustFilter (VString k) v (sequence_value (Some again)) =
    Ret (Some again, None).
Proof.
  intros H Hd Hr.
  assert (Hres : Forall (fun x => matchable x = true) (elems res) /\
                 Forall (fun x => matches k v x = true) (elems res)).
  { destruct (is_sequence coll) eqn:Hseq.
    - destruct (mustFilter_sequence_Ret _ _ _ _ Hseq H) as [Hall ->].
      split; [by apply Forall_list_filter | apply list_filter_matches].
    - unfold mustFilter in H. destruct coll; try discriminate.
      cbn -[doFilter] in H. rewrite doFilter_map in H.
      cbn -[MapEntries] in H.
      destruct (match_keys k v _) eqn:Em; injection H as <-; [| done].
      split; repeat constructor. unfold matches.
      rewrite doFilter_map. exact Em. }
  destruct Hres as [Hm Ht]. unfold sequence_value.
  rewrite mustFilter_slice_Ret by by eapply Forall_matchable_reordered.
  do 3 f_equal. apply list_filter_true.
  clear Hm. induction Hr as [| x y l1 l2 Hxy _ IH]; [done |].
  apply Forall_cons in Hd as [Hx Hd]. apply Forall_cons in Ht as [Hmx Ht].
  constructor; [by rewrite <- (matches_reordered x y k v) | by apply IH].
Qed.

Lemma mustFilter_idempotent_witness :
  mustFilter (VString "name") (VString "x")
    (sequence_value
       (Some [dynamic_map [("tier", VString "web"); ("name", VString "x")]])) =
  Ret (Some [dynamic_map [("tier", VString "web"); ("name", VString "x")]],
       None).
Proof.
  apply (mustFilter_idempotent "name" (VString "x")
           (VSlice TInterface
              (Some [dynamic_map [("name", VString "x");
                                  ("tier", VString "web")];
                     dynamic_map [("name", VString "y")]]))
           (Some [dynamic_map [("name", VString "x");
                               ("tier", VString "web")]])).
  - reflexivity.
  - repeat constructor.
  - repeat constructor.
Defined.

(** X5: two filters over a sequence can be applied in either order,
    in whatever order each call sees the keys of the map elements,
    provided no two keys of such an element print the same
    [String()]: both orders return the elements that match both
    predicates. *)
Theorem mustFilter_commute (k1 k2 : string) (v1 v2 coll coll' : value)
    (r1 r2 : slice value) (s1 s2 : list value) :
  is_sequence coll = true -> is_sequence coll' = true ->
  Forall (fun x => keys_distinct x = true) (Elements coll) ->
  Forall2 reordered (Elements coll) (Elements coll') ->
  mustFilter (VString k1) v1 coll = Ret (r1, None) ->
  mustFilter (VString k2) v2 coll' = Ret (r2, None) ->
  Forall2 reordered (elems r1) s1 ->
  Forall2 reordered (elems r2) s2 ->
  exists t1 t2,
    mustFilter (VString k2) v2 (sequence_value (Some s1)) =
      Ret (Some t1, None) /\
    mustFilter (VString k1) v1 (sequence_value (Some s2)) =
      Ret (Some t2, None) /\
    Forall2 reordered t1 t2 /\
    Forall2 reordered
      (List.filter (fun x => matches k1 v1 x && matches k2 v2 x)
                   (Elements coll)) t1.
Proof.
  intros Hseq Hseq' Hd Hcc H1 H2 Hs1 Hs2.
  destruct (mustFilter_sequence_Ret _ _ _ _ Hseq H1) as [Hm ->].
  destruct (mustFilter_sequence_Ret _ _ _ _ Hseq' H2) as [Hm' ->].
  simpl in Hs1, Hs2.
  pose proof (Forall_keys_distinct_reordered _ _ Hd Hcc) as Hd'.
  unfold sequence_value.
  rewrite !mustFilter_slice_Ret
    by (eapply Forall_matchable_reordered; [| eassumption];
        by apply Forall_list_filter).
  do 2 eexists. split; [reflexivity |]. split; [reflexivity |].
  assert (Hbase : Forall2 reordered
            (List.filter (fun x => matches k1 v1 x && matches k2 v2 x)
                         (Elements coll))
            (List.filter (matches k2 v2) s1)).
  { rewrite <- list_filter_and.
    apply filter_reordered; [by apply Forall_list_filter | done]. }
  split; [| done].
  eapply Forall2_reordered_trans; [by apply Forall2_reordered_sym |].
  eapply Forall2_reordered_trans;
    [| apply filter_reordered; [by apply Forall_list_filter | exact Hs2]].
  rewrite list_filter_and.
  replace (List.filter (fun x => matches k2 v2 x && matches k1 v1 x)
                       (Elements coll'))
    with (List.filter (fun x => matches k1 v1 x && matches k2 v2 x)
                      (Elements coll'))
    by (apply filter_ext; intros x; apply andb_comm).
  rewrite <- !list_filter_and.
  apply filter_reordered; [by apply Forall_list_filter |].
  by apply filter_reordered.
Qed.

Lemma mustFilter_commute_witness :
  exists t1 t2,
    mustFilter (VString "tier") (VString "web")
      (sequence_value
         (Some [dynamic_map [("tier", VString "web"); ("name", VString "x")]]))
      = Ret (Some t1, None) /\
    mustFilter (VString "name") (VString "x")
      (sequence_value
         (Some [dynamic_map [("name", VString "x"); ("tier", VString "web")];
                dynamic_map [("tier", VString "web"); ("name", VString "y")]]))
      = Ret (Some t2, None) /\
    Forall2 reordered t1 t2 /\
    Forall2 reordered
      (List.filter
         (fun x => matches "name" (VString "x") x &&
                   matches "tier" (VString "web") x)
         [dynamic_map [("name", VString "x"); ("tier", VString "web")];
          dynamic_map [("name", VString "y"); ("tier", VString "web")]]) t1.
Proof.
  apply (mustFilter_commute "name" "tier" (VString "x") (VString "web")
           (VSlice TInterface
              (Some [dynamic_map [("name", VString "x");
                                  ("tier", VString "web")];
                     dynamic_map [("name", VString "y");
                                  ("tier", VString "web")]]))
           (VSlice TInterface
              (Some [dynamic_map [("name", VString "x");
                                  ("tier", VString "web")];
                     dynamic_map [("tier", VString "web");
                                  ("name", VString "y")]]))
           (Some [dynamic_map [("name", VString "x");
                               ("tier", VString "web")]])
           (Some [dynamic_map [("name", VString "x");
                               ("tier", VString "web")];
                  dynamic_map [("tier", VString "web");
                               ("name", VString "y")]])).
  - reflexivity.
  - reflexivity.
  - repeat constructor.
  - repeat constructor.
  - reflexivity.
  - reflexivity.
  - repeat constructor.
  - repeat constructor.
Defined.

(** X6: filtering the concatenation of two slices returns what
    filtering each of them returns, one after the other, in whatever
    order the calls see the keys of the map elements, provided no two
    keys of such an element print the same [String()]. *)
Theorem mustFilter_app (k : string) (v : value) (e : type)
    (l1 l2 whole r1 r2 : list value) :
  Forall (fun x => keys_distinct x = true) (l1 ++ l2) ->
  Forall2 reordered (l1 ++ l2) whole ->
  mustFilter (VString k) v (VSlice e (Some l1)) = Ret (Some r1, None) ->
  mustFilter (VString k) v (VSlice e (Some l2)) = Ret (Some r2, None) ->
  exists r,
    mustFilter (VString k) v (VSlice e (Some whole)) = Ret (Some r, None) /\
    Forall2 reordered (r1 ++ r2) r.
Proof.
  intros Hd Hw H1 H2.
  destruct (mustFilter_sequence_Ret _ _ (VSlice e (Some l1)) _ eq_refl H1)
    as [Hm1 [= ->]].
  destruct (mustFilter_sequence_Ret _ _ (VSlice e (Some l2)) _ eq_refl H2)
    as [Hm2 [= ->]].
  simpl in *.
  rewrite mustFilter_slice_Ret
    by (eapply Forall_matchable_reordered; [| exact Hw]; by apply Forall_app).
  eexists. split; [reflexivity |].
  rewrite <- List.filter_app. by apply filter_reordered.
Qed.

Lemma mustFilter_app_witness :
  exists r,
    mustFilter (VString "name") (VString "x")
      (VSlice TInterface
         (Some [dynamic_map [("name", VString "x")];
                dynamic_map [("name", VString "y")];
                dynamic_map [("n", VInt 2); ("name", VString "x")]])) =
    Ret (Some r, None) /\
    Forall2 reordered
      ([dynamic_map [("name", VString "x")]] ++
       [dynamic_map [("name", VString "x"); ("n", VInt 2)]]) r.
Proof.
  apply (mustFilter_app "name" (VString "x") TInterface
           [dynamic_map [("name", VString "x")]]
           [dynamic_map [("name", VString "y")];
            dynamic_map [("name", VString "x"); ("n", VInt 2)]]).
  - repeat constructor.
  - repeat constructor.
  - reflexivity.
  - reflexivity.
Defined.

End filter_algebra.

Section filter_elements.
Import reflect engine.

Lemma match_keys_lookup (entries : list (string * value)) k v :
  match_keys k v
    (List.map (fun kv => (Val TString (fst kv), snd kv))
       (List.map (fun kv => (VString (fst kv), snd kv)) entries)) =
  match (list_to_map entries : gmap string value) !! k with
  | Some x => DeepEqual x v
  | None => false
  end.
Proof.
  induction entries as [| [k0 x0] entries IH]; [done |].
  cbn -[DeepEqual]. case_bool_decide as Hk.
  - subst k0. by rewrite lookup_insert_eq.
  - by rewrite lookup_insert_ne.
Qed.

Lemma doFilter_dynamic_map entries k v :
  doFilter (dynamic_map entries) k v =
  Ret (match (list_to_map entries : gmap string value) !! k with
       | Some x => DeepEqual x v
       | None => false
       end).
Proof.
  unfold dynamic_map. rewrite doFilter_map. f_equal.
  apply match_keys_lookup.
Qed.

(** X7: on a string-keyed map with pairwise different keys the match
    rule does not depend on the order in which the keys are handed
    out: the map matches exactly when it has the key and the value
    stored under it is deep-equal to the predicate value. *)
Theorem doFilter_key_order (entries1 entries2 : list (string * value))
    (k : string) (v : value) :
  NoDup (fst <$> entries1) ->
  entries1 ≡ₚ entries2 ->
  doFilter (dynamic_map entries1) k v = doFilter (dynamic_map entries2) k v /\
  (forall x, (k, x) ∈ entries1 ->
     doFilter (dynamic_map entries2) k v = Ret (DeepEqual x v)) /\
  (k ∉ (fst <$> entries1) ->
     doFilter (dynamic_map entries2) k v = Ret false).
Proof.
  intros Hnd Hperm.
  assert (Hmap : (list_to_map entries1 : gmap string value) =
                 list_to_map entries2) by by apply list_to_map_proper.
  rewrite !doFilter_dynamic_map, <- Hmap. split; [done | split].
  - intros x Hin.
    by rewrite (elem_of_list_to_map_1 (M := gmap string) _ _ _ Hnd Hin).
  - intros Hout.
    by rewrite (not_elem_of_list_to_map_1 (M := gmap string)).
Qed.

Lemma doFilter_key_order_witness :
  doFilter (dynamic_map [("name", VString "x"); ("tier", VString "web")])
           "tier" (VString "web") =
  doFilter (dynamic_map [("tier", VString "web"); ("name", VString "x")])
           "tier" (VString "web").
Proof.
  apply (doFilter_key_order
           [("name", VString "x"); ("tier", VString "web")]
           [("tier", VString "web"); ("name", VString "x")]).
  - by apply (bool_decide_unpack _); vm_compute.
  - apply perm_swap.
Defined.

Lemma doFilter_struct name fields k v :
  doFilter (VStruct name fields) k v =
  Ret (DeepEqual (VString (Value_String (lookup_field k fields))) v).
Proof. reflexivity. Qed.

(** X8: for a struct without embedded fields, a predicate value that
    is not a string never matches, whatever the fields hold; and when
    the struct has no field of the given name, the element is neither
    skipped nor reported: it matches exactly the string that reflect
    prints for an invalid Value. *)
Theorem doFilter_struct_edges (name : string)
    (fields : list (string * (type * value))) (k : string) (v : value) :
  (TypeOf v <> Some TString ->
   doFilter (VStruct name fields) k v = Ret false) /\
  (k ∉ (fst <$> fields) ->
   (doFilter (VStruct name fields) k v = Ret true <->
    v = VString "<invalid Value>")).
Proof.
  split.
  - intros Hv. rewrite doFilter_struct. f_equal.
    destruct (DeepEqual _ v) eqn:E; [| done].
    apply DeepEqual_VString in E. by subst v.
  - intros Hout.
    assert (Hz : lookup_field k fields = Zero).
    { induction fields as [| [a [t x]] fields IH]; [done |]. simpl.
      rewrite fmap_cons, not_elem_of_cons in Hout. destruct Hout as [Hne Hout].
      rewrite bool_decide_false by done. by apply IH. }
    rewrite doFilter_struct, Hz. split.
    + intros [= H]. by apply DeepEqual_VString in H.
    + intros ->. reflexivity.
Qed.

Lemma doFilter_struct_edges_witness :
  doFilter (VStruct "engine.service" [("Port", (TInt, VInt 80))])
           "Port" (VInt 80) = Ret false /\
  (doFilter (VStruct "engine.service" [("Port", (TInt, VInt 80))])
            "Name" (VString "<invalid Value>") = Ret true <->
   VString "<invalid Value>" = VString "<invalid Value>").
Proof.
  pose proof (doFilter_struct_edges "engine.service"
                [("Port", (TInt, VInt 80))]) as H.
  split.
  - apply (H "Port" (VInt 80)). discriminate.
  - apply (H "Name" (VString "<invalid Value>")).
    by apply (bool_decide_unpack _); vm_compute.
Defined.

Lemma DeepEqual_scalar x : scalar x = true -> DeepEqual x x = true.
Proof. destruct x; try discriminate; intros _; simpl; by case_bool_decide. Qed.

(** X9: filtering by a string, boolean or integer taken from an
    element finds the element.  A string-keyed map with pairwise
    different keys matches the key and value of each such entry, in
    whatever order the call sees its keys, so [mustFilter] on the map
    returns it; and a struct without embedded fields matches the
    content of its string field of the given name. *)
Theorem doFilter_own_entry (k : string) :
  (forall entries entries' x,
     NoDup (fst <$> entries) -> (k, x) ∈ entries -> scalar x = true ->
     entries ≡ₚ entries' ->
     doFilter (dynamic_map entries') k x = Ret true /\
     mustFilter (VString k) x (dynamic_map entries') =
       Ret (Some [dynamic_map entries'], None)) /\
  (forall name fields s,
     lookup_field k fields = Val TString (VString s) ->
     doFilter (VStruct name fields) k (VString s) = Ret true).
Proof.
  split.
  - intros entries entries' x Hnd Hin Hs Hperm.
    assert (Hd : doFilter (dynamic_map entries') k x = Ret true).
    { rewrite doFilter_dynamic_map.
      rewrite <- (list_to_map_proper (M := gmap string) _ _ Hnd Hperm).
      rewrite (elem_of_list_to_map_1 (M := gmap string) _ _ _ Hnd Hin).
      by rewrite DeepEqual_scalar. }
    split; [done |]. unfold mustFilter.
    change (TypeOf (dynamic_map entries'))
      with (Some (TMap TString TInterface)).
    cbn -[doFilter dynamic_map]. by rewrite Hd.
  - intros name fields s Hf. rewrite doFilter_struct, Hf. f_equal.
    by apply DeepEqual_VString.
Qed.

Lemma doFilter_own_entry_witness :
  doFilter (dynamic_map [("port", VInt 80); ("name", VString "x")])
           "port" (VInt 80) = Ret true /\
  doFilter (VStruct "engine.service" [("Name", (TString, VString "web"))])
           "Name" (VString "web") = Ret true.
Proof.
  pose proof (doFilter_own_entry "port") as [Hmap _].
  pose proof (doFilter_own_entry "Name") as [_ Hstruct].
  split.
  - apply (Hmap [("name", VString "x"); ("port", VInt 80)]
                [("port", VInt 80); ("name", VString "x")] (VInt 80)).
    + by apply (bool_decide_unpack _); vm_compute.
    + apply elem_of_cons. right. apply elem_of_cons. by left.
    + reflexivity.
    + apply perm_swap.
  - apply Hstruct. reflexivity.
Defined.

(** X10: a map given as the collection is filtered like the sequence
    holding just that map, up to the shape of the empty result and in
    whatever order the two calls see its keys, provided no two keys
    print the same [String()]: both return the map when it matches;
    when it does not, the map gives the nil sequence and the
    one-element sequence gives the empty one. *)
Theorem mustFilter_map_as_singleton (k : string) (v : value)
    (kt et : type) (entries : option (list (value * value)))
    (again : value) :
  keys_distinct (VMap kt et entries) = true ->
  reordered (VMap kt et entries) again ->
  exists r1 r2,
    mustFilter (VString k) v (VMap kt et entries) = Ret (r1, None) /\
    mustFilter (VString k) v (VSlice (TMap kt et) (Some [again])) =
      Ret (r2, None) /\
    (matches k v (VMap kt et entries) = true ->
       r1 = Some [VMap kt et entries] /\ r2 = Some [again]) /\
    (matches k v (VMap kt et entries) = false ->
       r1 = None /\ r2 = Some []).
Proof.
  intros Hd Hr.
  pose proof (matches_reordered _ _ k v Hd Hr) as Hm.
  assert (Ha : matchable again = true)
    by by rewrite <- (matchable_reordered _ _ Hr).
  rewrite mustFilter_slice_Ret by by repeat constructor.
  simpl. rewrite <- Hm.
  unfold mustFilter, matches. cbn -[doFilter].
  rewrite doFilter_map. cbn -[MapEntries].
  destruct (match_keys k v _); do 2 eexists;
    (split; [reflexivity |]); (split; [reflexivity |]); split;
    intros; done.
Qed.

Lemma mustFilter_map_as_singleton_witness :
  exists r1 r2,
    mustFilter (VString "name") (VString "x")
      (dynamic_map [("name", VString "x"); ("tier", VString "web")]) =
      Ret (r1, None) /\
    mustFilter (VString "name") (VString "x")
      (VSlice (TMap TString TInterface)
         (Some [dynamic_map [("tier", VString "web"); ("name", VString "x")]]))
      = Ret (r2, None) /\
    (matches "name" (VString "x")
       (dynamic_map [("name", VString "x"); ("tier", VString "web")]) = true ->
     r1 = Some [dynamic_map [("name", VString "x"); ("tier", VString "web")]] /\
     r2 = Some [dynamic_map [("tier", VString "web"); ("name", VString "x")]])
    /\
    (matches "name" (VString "x")
       (dynamic_map [("name", VString "x"); ("tier", VString "web")]) = false ->
     r1 = None /\ r2 = Some []).
Proof.
  apply (mustFilter_map_as_singleton "name" (VString "x") TString TInterface
           (Some [(VString "name", VString "x");
                  (VString "tier", VString "web")])
           (dynamic_map [("tier", VString "web"); ("name", VString "x")])).
  - reflexivity.
  - repeat constructor.
Defined.

End filter_elements.
